(** * Restoration engine of wal-g: the tar interpreter of the PostgreSQL
    restore path (FileTarInterpreter), embedded over a small model of the
    operating system.

    The program text is Go; every function of the interpreter is a function
    of the monad [Go] below, which threads the state of the world (file
    system, configuration, issued system calls and log lines) and
    distinguishes a normal return from process termination (Fatalf).

    The file system is a finite map from path names to nodes.  System
    calls fail where the state of the file system makes them fail (missing
    file, name taken, missing parent directory) and, besides, wherever the
    fault table of the world says so; this is how failing copies, chmods,
    fsyncs and removals are expressed (and missing permissions, a full
    disk, an error of the device).  Every call, failed or not, is recorded
    in the trace of the world.

    The model keeps to what the interpreter relies on.  A path is a name:
    the elements "." and "..", repeated separators and links inside a path
    are not interpreted, and a call that meets a link refuses it.  A file
    or directory is created with the permission the call asks for (the
    umask of the process is not applied).  The writes of one copy are one
    entry of the trace. *)

From Stdlib Require Import ZArith String Ascii List Lia Bool.
From stdpp Require Import base option list gmap strings.

Local Open Scope Z_scope.

(** ** Bytes and file contents *)

Abbreviation byte := Byte.byte.

Definition zeros (n : nat) : list byte := replicate n Byte.x00.

(** pwrite(2): [data] is stored at offset [off]; a gap between the old end
    of the file and [off] reads as zero; a write of no bytes changes
    nothing. *)
Definition pwrite (content : list byte) (off : nat) (data : list byte) : list byte :=
  match data with
  | [] => content
  | _ => take off (content ++ zeros (off - length content))
         ++ data ++ drop (off + length data) content
  end.

(** ftruncate(2): cut or zero-extend to exactly [size] bytes. *)
Definition ftruncate (content : list byte) (size : nat) : list byte :=
  take size content ++ zeros (size - length content).

(** The bytes [off, off+len) of a file. *)
Definition slice (content : list byte) (off len : nat) : list byte :=
  take len (drop off content).

(** ** Errors *)

Inductive Syscall : Type :=
| SysOpen | SysWrite | SysUnlink | SysChmod | SysFsync | SysFtruncate
| SysMkdir | SysLink | SysSymlink | SysSync.

Definition EPERM : Z := 1.
Definition ENOENT : Z := 2.
Definition EBADF : Z := 9.
Definition EEXIST : Z := 17.
Definition ENOTDIR : Z := 20.
Definition EISDIR : Z := 21.
Definition EINVAL : Z := 22.
Definition ELOOP : Z := 40.

(** Go [error] values.  [Wrapped] is what errors.Wrap / errors.Wrapf build,
    [ErrorfD] is errors.Errorf with one %d argument. *)
Inductive error : Type :=
| Errno (call : Syscall) (path : string) (code : Z)
| ReadError (msg : string)
| Wrapped (cause : error) (msg : string)
| ErrorfD (format : string) (arg : Z).

(** errors.Wrap(err, msg): nil stays nil. *)
Definition errors_Wrap (err : option error) (msg : string) : option error :=
  match err with
  | None => None
  | Some e => Some (Wrapped e msg)
  end.

Inductive res (A : Type) : Type :=
| Success (a : A)
| Failure (e : error).
Arguments Success {A} a.
Arguments Failure {A} e.

(** ** The world *)

(** The mode of a file or directory is what chmod(2) knows: the nine
    permission bits and set-uid, set-gid and sticky. *)
Inductive Node : Type :=
| RegFile (data : list byte) (mode : Z)
| Dir (mode : Z)
| HardLink (oldname : string)
| Symlink (oldname : string).

Inductive Level : Type := DebugLevel | WarningLevel | ErrorLevel.

Inductive Arg : Type :=
| AStr (s : string)
| AErr (e : error).

(** Everything the program asks of its environment, in program order:
    system calls (also the failed ones) and log lines. *)
Inductive Event : Type :=
| EvOpen (path : string) (flag perm : Z)
| EvWrite (path : string) (off : nat) (data : list byte)
| EvUnlink (path : string)
| EvChmod (path : string) (mode : Z)
| EvFsync (path : string)
| EvFtruncate (path : string) (size : nat)
| EvClose (path : string)
| EvMkdir (path : string) (perm : Z)
| EvLink (oldname newname : string)
| EvSymlink (oldname newname : string)
| EvSync
| EvLog (lvl : Level) (format : string) (args : list Arg).

(** The configuration registry (viper), read-only here. *)
Record Viper : Type := {
  GetString : string -> string;
  IsSet : string -> bool;
  GetBool : string -> bool;
}.

(** [fs] maps path names to nodes; [faults c p] is the errno that system
    call [c] on path [p] reports for reasons outside the model (0: none);
    [short_write p] is how many bytes a failing write to [p] still stores. *)
Record World : Type := {
  fs : gmap string Node;
  trace : list Event;
  viper : Viper;
  faults : Syscall -> string -> Z;
  short_write : string -> nat;
}.

Definition with_fs (f : gmap string Node) (w : World) : World :=
  {| fs := f; trace := trace w; viper := viper w;
     faults := faults w; short_write := short_write w |}.

Definition record (e : Event) (w : World) : World :=
  {| fs := fs w; trace := trace w ++ [e]; viper := viper w;
     faults := faults w; short_write := short_write w |}.

(** What was asked of the environment between two states of the world. *)
Definition since (w w' : World) : list Event :=
  drop (length (trace w)) (trace w').

(** ** The monad of Go functions *)

Inductive Outcome (A : Type) : Type :=
| Returned (a : A) (w : World)
| Exited (w : World).
Arguments Returned {A} a w.
Arguments Exited {A} w.

Definition Go (A : Type) : Type := World -> Outcome A.

Definition ret {A : Type} (a : A) : Go A := fun w => Returned a w.

Definition bind {A B : Type} (m : Go A) (k : A -> Go B) : Go B :=
  fun w => match m w with
           | Returned a w' => k a w'
           | Exited w' => Exited w'
           end.

Notation "'let*' x := m 'in' k" := (bind m (fun x => k))
  (at level 10, x name, m at level 100, k at level 200).
Notation "'let*' ' pat := m 'in' k" :=
  (bind m (fun x => match x with pat => k end))
  (at level 10, pat pattern, m at level 100, k at level 200).

(** A computation that asks of the environment only things in [P],
    however it ends. *)
Definition only (P : Event -> Prop) (w w' : World) : Prop :=
  exists evs, trace w' = trace w ++ evs /\ Forall P evs.

Definition quiet {A : Type} (P : Event -> Prop) (m : Go A) : Prop :=
  forall w, match m w with
            | Returned _ w' => only P w w'
            | Exited w' => only P w w'
            end.

(** The event is not the fsync of a file. *)
Definition not_fsync (e : Event) : Prop := forall p, e <> EvFsync p.

Definition emit (e : Event) : Go unit := fun w => Returned tt (record e w).

(** tracelog loggers. *)
Definition Debugf (format : string) (args : list Arg) : Go unit :=
  emit (EvLog DebugLevel format args).
Definition Debugln (prefix operand : string) : Go unit :=
  emit (EvLog DebugLevel prefix [AStr operand]).
Definition Warningf (format : string) (args : list Arg) : Go unit :=
  emit (EvLog WarningLevel format args).
(** tracelog.ErrorLogger.Fatalf: log, then os.Exit(1). *)
Definition Fatalf {A : Type} (format : string) (args : list Arg) : Go A :=
  fun w => Exited (record (EvLog ErrorLevel format args) w).

(** ** Path names *)

Definition is_sep (c : ascii) : bool := Ascii.eqb c "/"%char.

(** On a reversed path: drop the trailing separators. *)
Fixpoint skip_seps (l : list ascii) : list ascii :=
  match l with
  | c :: l' => if is_sep c then skip_seps l' else l
  | [] => []
  end.

(** On a reversed path: the last element, and what is before it. *)
Fixpoint span_elem (l : list ascii) : list ascii * list ascii :=
  match l with
  | c :: l' => if is_sep c then ([], l)
               else (c :: (span_elem l').1, (span_elem l').2)
  | [] => ([], [])
  end.

Definition chars (s : string) : list ascii := list_ascii_of_string s.
Definition str (l : list ascii) : string := string_of_list_ascii l.

(** filepath.Base (Unix). *)
Definition filepath_Base (path : string) : string :=
  if decide (path = "") then "."
  else match (span_elem (skip_seps (rev (chars path)))).1 with
       | [] => "/"
       | e => str (rev e)
       end.

(** strings.HasSuffix and strings.TrimSuffix. *)
Definition strings_HasSuffix (s suffix : string) : bool :=
  bool_decide (drop (length (chars s) - length (chars suffix)) (chars s) = chars suffix).

Definition strings_TrimSuffix (s suffix : string) : string :=
  if strings_HasSuffix s suffix
  then str (take (length (chars s) - length (chars suffix)) (chars s))
  else s.

(** The name under which the file system knows a path: trailing separators
    do not count ("a/b/" is "a/b"); the root is "/".  The elements "." and
    "..", repeated separators and links inside a path are not interpreted. *)
Definition key (path : string) : string :=
  match skip_seps (rev (chars path)) with
  | [] => if decide (path = "") then "" else "/"
  | r => str (rev r)
  end.

(** The path of the directory holding [path], as os.MkdirAll computes it:
    None when [path] has a single element (it lives in the root or the
    working directory). *)
Definition parent_of (path : string) : option string :=
  let r := (span_elem (skip_seps (rev (chars path)))).2 in
  if decide (1 < length r)%nat then Some (str (rev (tail r))) else None.

(** Permission masks, written in octal in the source: 0755 and 0666. *)
Definition perm_0755 : Z := 493.
Definition perm_0666 : Z := 438.

(** A single path element: not empty, no separator in it. *)
Definition plain (s : string) : bool :=
  negb (bool_decide (s = "")) && forallb (fun c => negb (is_sep c)) (chars s).

(** A path, the directory holding it, the directory holding that, ... *)
Fixpoint path_chain (fuel : nat) (path : string) : list string :=
  match fuel with
  | O => []
  | S fuel' => path :: match parent_of path with
                       | Some d => path_chain fuel' d
                       | None => []
                       end
  end.

Definition node_at (w : World) (path : string) : option Node :=
  if decide (key path = "/") then Some (Dir perm_0755) else fs w !! key path.

Definition is_dir (w : World) (path : string) : bool :=
  match node_at w path with
  | Some (Dir _) => true
  | _ => false
  end.

(** Nothing but directories stands where [path] and the directories above
    it are to be. *)
Definition clear_way (w : World) (path : string) : bool :=
  forallb (fun q => match node_at w q with
                    | Some (Dir _) | None => true
                    | Some _ => false
                    end)
    (path_chain (S (length (chars path))) path).

(** What a state of the file system has beyond another: directories of
    one mode, at names that were free. *)
Definition grown_by_dirs (perm : Z) (before after : gmap string Node) : Prop :=
  ∀ k, after !! k = before !! k
       ∨ (before !! k = None ∧ after !! k = Some (Dir perm)).

(** No link stands anywhere in the file system.  The calls below do not
    follow links: they refuse one where they meet it. *)
Definition link_free (w : World) : Prop :=
  map_Forall (fun _ node => match node with
                            | HardLink _ | Symlink _ => False
                            | _ => True
                            end) (fs w).

Definition parent_ok (w : World) (path : string) : bool :=
  match parent_of path with
  | None => true
  | Some d => is_dir w d
  end.

(** ** Operating system and Go library calls *)

(** A call that fails for an outside reason, or else runs [body]. *)
Definition guarded {A : Type} (c : Syscall) (path : string) (w : World)
    (fail : error -> Outcome A) (body : Outcome A) : Outcome A :=
  if decide (faults w c path = 0) then body
  else fail (Errno c path (faults w c path)).

(** open(2) flags (Linux values). *)
Definition O_WRONLY : Z := 1.
Definition O_RDWR : Z := 2.
Definition O_CREATE : Z := 64.
Definition O_TRUNC : Z := 512.

(** An *os.File: the name it was opened under and its write offset. *)
Record File : Type := {
  File_Name : string;
  File_offset : nat;
}.

(** os.OpenFile.  A missing file is created (inside an existing directory)
    only under O_CREATE; an existing one is emptied under O_TRUNC. *)
Definition os_OpenFile (name : string) (flag perm : Z) : Go (res File) :=
  fun w =>
    let w1 := record (EvOpen name flag perm) w in
    let handle := {| File_Name := name; File_offset := 0 |} in
    guarded SysOpen name w (fun e => Returned (Failure e) w1)
      match node_at w name with
      | Some (RegFile data mode) =>
          if Z.testbit flag 9
          then Returned (Success handle)
                 (with_fs (<[key name := RegFile [] mode]> (fs w)) w1)
          else Returned (Success handle) w1
      | Some (Dir _) => Returned (Failure (Errno SysOpen name EISDIR)) w1
      | Some _ => Returned (Failure (Errno SysOpen name ELOOP)) w1
      | None =>
          if Z.testbit flag 6 && parent_ok w name && negb (bool_decide (key name = ""))
          then Returned (Success handle)
                 (with_fs (<[key name := RegFile [] perm]> (fs w)) w1)
          else Returned (Failure (Errno SysOpen name ENOENT)) w1
      end.

(** One write at a given offset of an open file (File.WriteAt, and
    File.Write at the current offset).  A failing write may still have
    stored a prefix of its data. *)
Definition write_at (name : string) (off : nat) (data : list byte)
    : Go (nat * option error) :=
  fun w =>
    let w1 := record (EvWrite name off data) w in
    match fs w !! key name with
    | Some (RegFile content mode) =>
        if decide (faults w SysWrite name = 0)
        then Returned (length data, None)
               (with_fs (<[key name := RegFile (pwrite content off data) mode]> (fs w)) w1)
        else let stored := take (short_write w name) data in
             Returned (length stored, Some (Errno SysWrite name (faults w SysWrite name)))
               (with_fs (<[key name := RegFile (pwrite content off stored) mode]> (fs w)) w1)
    | _ => Returned (0%nat, Some (Errno SysWrite name EBADF)) w1
    end.

(** An io.Reader: the bytes it delivers, and then either the end of the
    stream (None) or an error. *)
Record Reader : Type := {
  r_data : list byte;
  r_err : option error;
}.

(** io.Copy(dst, src): what [src] delivers is written at the offset of
    [dst], and the first error of either side is returned.  The copy loop
    writes only what a Read has delivered: for a reader without bytes
    nothing is written and no write can fail.  The writes of one copy are
    taken together, as the one [EvWrite] of all the bytes. *)
Definition io_Copy (dst : File) (src : Reader) : Go (nat * option error) :=
  match r_data src with
  | [] => ret (0%nat, r_err src)
  | _ =>
      let* '(n, err) := write_at (File_Name dst) (File_offset dst) (r_data src) in
      match err with
      | Some e => ret (n, Some e)
      | None => ret (n, r_err src)
      end
  end.

(** What a copy of [data] to the file [name] asks of the environment. *)
Definition copy_events (name : string) (off : nat) (data : list byte) : list Event :=
  match data with
  | [] => []
  | _ => [EvWrite name off data]
  end.

(** os.Remove. *)
Definition os_Remove (name : string) : Go (option error) :=
  fun w =>
    let w1 := record (EvUnlink name) w in
    guarded SysUnlink name w (fun e => Returned (Some e) w1)
      match fs w !! key name with
      | Some _ => Returned None (with_fs (delete (key name) (fs w)) w1)
      | None => Returned (Some (Errno SysUnlink name ENOENT)) w1
      end.

(** os.FileMode(m) for an int64 [m]: conversion to 32 bits. *)
Definition os_FileMode (m : Z) : Z := m mod 2 ^ 32.

(** The bits of an os.FileMode: ModePerm (0777), and ModeSetuid, ModeSetgid
    and ModeSticky, which are bits 23, 22 and 20.  The bits of chmod(2):
    S_ISUID (04000), S_ISGID (02000) and S_ISVTX (01000). *)
Definition ModePerm : Z := 511.
Definition ModeSetuid_bit : Z := 23.
Definition ModeSetgid_bit : Z := 22.
Definition ModeSticky_bit : Z := 20.
Definition S_ISUID : Z := 2048.
Definition S_ISGID : Z := 1024.
Definition S_ISVTX : Z := 512.

(** syscallMode of package os: the mode bits that File.Chmod and os.Chmod
    hand to the system call.  Only the permission bits of the os.FileMode
    pass as they are; set-uid, set-gid and sticky pass when Go's own flags
    for them are set; every other bit is dropped. *)
Definition syscallMode (i : Z) : Z :=
  Z.lor (Z.lor (Z.lor (Z.land i ModePerm)
                  (if Z.testbit i ModeSetuid_bit then S_ISUID else 0))
           (if Z.testbit i ModeSetgid_bit then S_ISGID else 0))
    (if Z.testbit i ModeSticky_bit then S_ISVTX else 0).

(** File.Chmod: fchmod(2) with syscallMode(mode). *)
Definition File_Chmod (f : File) (mode : Z) : Go (option error) :=
  fun w =>
    let name := File_Name f in
    let w1 := record (EvChmod name (syscallMode mode)) w in
    guarded SysChmod name w (fun e => Returned (Some e) w1)
      match fs w !! key name with
      | Some (RegFile data _) =>
          Returned None
            (with_fs (<[key name := RegFile data (syscallMode mode)]> (fs w)) w1)
      | _ => Returned (Some (Errno SysChmod name EBADF)) w1
      end.

(** os.Chmod, by path: chmod(2) with syscallMode(mode). *)
Definition os_Chmod (name : string) (mode : Z) : Go (option error) :=
  fun w =>
    let w1 := record (EvChmod name (syscallMode mode)) w in
    guarded SysChmod name w (fun e => Returned (Some e) w1)
      match fs w !! key name with
      | Some (RegFile data _) =>
          Returned None
            (with_fs (<[key name := RegFile data (syscallMode mode)]> (fs w)) w1)
      | Some (Dir _) =>
          Returned None (with_fs (<[key name := Dir (syscallMode mode)]> (fs w)) w1)
      | Some _ => Returned (Some (Errno SysChmod name ELOOP)) w1
      | None =>
          if decide (key name = "/") then Returned None w1
          else Returned (Some (Errno SysChmod name ENOENT)) w1
      end.

(** File.Sync: fsync(2) of one file. *)
Definition File_Sync (f : File) : Go (option error) :=
  fun w =>
    let name := File_Name f in
    let w1 := record (EvFsync name) w in
    guarded SysFsync name w (fun e => Returned (Some e) w1)
      (Returned None w1).

(** File.Truncate. *)
Definition File_Truncate (f : File) (size : nat) : Go (option error) :=
  fun w =>
    let name := File_Name f in
    let w1 := record (EvFtruncate name size) w in
    guarded SysFtruncate name w (fun e => Returned (Some e) w1)
      match fs w !! key name with
      | Some (RegFile data mode) =>
          Returned None (with_fs (<[key name := RegFile (ftruncate data size) mode]> (fs w)) w1)
      | _ => Returned (Some (Errno SysFtruncate name EBADF)) w1
      end.

(** utility.LoggedClose(file, msg): closes the handle. *)
Definition LoggedClose (f : File) : Go unit := emit (EvClose (File_Name f)).

(** os.Mkdir. *)
Definition os_Mkdir (name : string) (perm : Z) : Go (option error) :=
  fun w =>
    let w1 := record (EvMkdir name perm) w in
    guarded SysMkdir name w (fun e => Returned (Some e) w1)
      match node_at w name with
      | Some _ => Returned (Some (Errno SysMkdir name EEXIST)) w1
      | None =>
          if parent_ok w name && negb (bool_decide (key name = ""))
          then Returned None (with_fs (<[key name := Dir perm]> (fs w)) w1)
          else Returned (Some (Errno SysMkdir name ENOENT)) w1
      end.

(** os.MkdirAll, as the Go library has it: nothing to do for a directory
    that is there; otherwise the parent first, then the directory itself.
    The recursion is on a strictly shorter path, [fuel] bounds it. *)
Fixpoint MkdirAll_rec (fuel : nat) (path : string) (perm : Z) : Go (option error) :=
  fun w =>
    match node_at w path with
    | Some (Dir _) => Returned None w
    | Some _ => Returned (Some (Errno SysMkdir path ENOTDIR)) w
    | None =>
        match fuel with
        | O => Returned (Some (Errno SysMkdir path EINVAL)) w
        | S fuel' =>
            (let* err := match parent_of path with
                         | Some d => MkdirAll_rec fuel' d perm
                         | None => ret None
                         end in
             match err with
             | Some e => ret (Some e)
             | None =>
                 let* err := os_Mkdir path perm in
                 match err with
                 | Some e => fun w' => if is_dir w' path then Returned None w'
                                       else Returned (Some e) w'
                 | None => ret None
                 end
             end) w
        end
    end.

Definition os_MkdirAll (path : string) (perm : Z) : Go (option error) :=
  MkdirAll_rec (S (length (chars path))) path perm.

(** os.Link and os.Symlink: the new name must be free.  link(2) needs the
    old name to be there and refuses a directory; symlink(2) does not look
    at the old name, which is only the text the link holds. *)
Definition os_Link (oldname newname : string) : Go (option error) :=
  fun w =>
    let w1 := record (EvLink oldname newname) w in
    guarded SysLink newname w (fun e => Returned (Some e) w1)
      match node_at w oldname, node_at w newname with
      | None, _ => Returned (Some (Errno SysLink oldname ENOENT)) w1
      | Some _, Some _ => Returned (Some (Errno SysLink newname EEXIST)) w1
      | Some old, None =>
          if parent_ok w newname && negb (bool_decide (key newname = ""))
          then match old with
               | Dir _ => Returned (Some (Errno SysLink oldname EPERM)) w1
               | _ => Returned None
                        (with_fs (<[key newname := HardLink oldname]> (fs w)) w1)
               end
          else Returned (Some (Errno SysLink newname ENOENT)) w1
      end.

Definition os_Symlink (oldname newname : string) : Go (option error) :=
  fun w =>
    let w1 := record (EvSymlink oldname newname) w in
    guarded SysSymlink newname w (fun e => Returned (Some e) w1)
      match node_at w newname with
      | Some _ => Returned (Some (Errno SysSymlink newname EEXIST)) w1
      | None =>
          if parent_ok w newname && negb (bool_decide (key newname = ""))
          then Returned None (with_fs (<[key newname := Symlink oldname]> (fs w)) w1)
          else Returned (Some (Errno SysSymlink newname ENOENT)) w1
      end.

(** unix.Syscall(unix.SYS_SYNC, 0, 0, 0): the errno of sync(2). *)
Definition unix_Sync : Go Z :=
  fun w => Returned (faults w SysSync "") (record EvSync w).

(** viper accessors. *)
Definition viper_GetString (k : string) : Go string :=
  fun w => Returned (GetString (viper w) k) w.
Definition viper_IsSet (k : string) : Go bool :=
  fun w => Returned (IsSet (viper w) k) w.
Definition viper_GetBool (k : string) : Go bool :=
  fun w => Returned (GetBool (viper w) k) w.

(** ** Data of the interpreter *)

(** tar.Header: the fields the interpreter reads, and Linkname, the
    target name of a link entry (valid for TypeLink and TypeSymlink), which
    it does not read. *)
Record Header : Type := {
  Name : string;
  Typeflag : ascii;
  Mode : Z;
  Linkname : string;
}.

Definition TypeReg : ascii := "0"%char.
Definition TypeRegA : ascii := "000"%char.
Definition TypeLink : ascii := "1"%char.
Definition TypeSymlink : ascii := "2"%char.
Definition TypeDir : ascii := "5"%char.

(** Modelled from the spec: BackupSentinelDto and its method IsIncremental
    are declared outside src; the spec's backup descriptor carries
    "isIncremental: bool", which is all the interpreter asks of it. *)
Record BackupSentinelDto : Type := {
  IsIncremental : bool;
}.

(** Modelled from the spec: BackupFileDescription and FilesMetadataDto are
    declared outside src; the spec's file-metadata index maps an entry name
    to a record with "isIncremented: bool". *)
Record BackupFileDescription : Type := {
  IsIncremented : bool;
}.

Record FilesMetadataDto : Type := {
  Files : gmap string BackupFileDescription;
}.

(** The zero value a Go map lookup yields for a missing key. *)
Definition zeroFileDescription : BackupFileDescription :=
  {| IsIncremented := false |}.

(** FileTarInterpreter.  FilesToUnwrap is a map that may be nil; the field
    UnwrapResult is not read by the functions below and is left out. *)
Record FileTarInterpreter : Type := {
  DBDataDirectory : string;
  Sentinel : BackupSentinelDto;
  FilesMetadata : FilesMetadataDto;
  FilesToUnwrap : option (gmap string bool);
  createNewIncrementalFiles : bool;
}.

Definition NewFileTarInterpreter (dbDataDirectory : string)
    (sentinel : BackupSentinelDto) (filesMetadata : FilesMetadataDto)
    (filesToUnwrap : option (gmap string bool))
    (createNewIncrementalFiles : bool) : FileTarInterpreter :=
  {| DBDataDirectory := dbDataDirectory; Sentinel := sentinel;
     FilesMetadata := filesMetadata; FilesToUnwrap := filesToUnwrap;
     createNewIncrementalFiles := createNewIncrementalFiles |}.

(** The same interpreter without a restore selection. *)
Definition unfiltered (t : FileTarInterpreter) : FileTarInterpreter :=
  NewFileTarInterpreter (DBDataDirectory t) (Sentinel t) (FilesMetadata t)
    None (createNewIncrementalFiles t).

(** An increment stream once read: the final size of the file and the
    changed blocks, in stream order. *)
Record Increment : Type := {
  inc_size : nat;
  inc_blocks : list (nat * list byte);
}.

(** The bytes of the last block of the stream numbered [bn]. *)
Fixpoint last_block (bn : nat) (blocks : list (nat * list byte)) : option (list byte) :=
  match blocks with
  | [] => None
  | (n, page) :: rest =>
      match last_block bn rest with
      | Some p => Some p
      | None => if decide (n = bn) then Some page else None
      end
  end.

(** Byte [i] lies in no block of the stream (block size [bs]). *)
Definition untouched (bs : nat) (blocks : list (nat * list byte)) (i : nat) : Prop :=
  ∀ bn page, (bn, page) ∈ blocks → ¬ (bn * bs ≤ i < (bn + 1) * bs)%nat.

(** A file content after the blocks of a stream were written over it, one
    after the other, block [n] at offset [n * bs]. *)
Definition apply_blocks (bs : nat) (content : list byte)
    (blocks : list (nat * list byte)) : list byte :=
  fold_left (fun c b => pwrite c (b.1 * bs) b.2) blocks content.

Definition nl : string := String (ascii_of_nat 10) EmptyString.

(** ** Oplog archives of MongoDB (package archive)

    The loader works through collaborators that live outside this file:
    storage folders, the uploader of package internal, archive names of
    package models.  They are an interface here, [Collaborators]; calls
    that reach the remote storage are recorded in a journal, take time on
    a clock, and fail where the table of the remote side says so. *)
Module Archive.

(** storage.Object, as far as the loader looks at it. *)
Record Object : Type := {
  GetName : string;
}.

Class Collaborators : Type := {
  (** storage.Folder *)
  Folder : Type;
  GetSubFolder : Folder -> string -> Folder;
  ListFolder : Folder -> res (list Object * list Folder);
  (** models.Archive *)
  OplogArchive : Type;
  ArchFromFilename : string -> res OplogArchive;
  Filename : OplogArchive -> string;
  Extension : OplogArchive -> string;
  (** the compressor of an uploader *)
  Compressor : Type;
  Compressor_FileExtension : Compressor -> string;
  (** what internal.GetSentinelUserData yields *)
  UserData : Type;
}.

Section Loader.

Context `{Collaborators}.

(** StreamSentinelDto represents backup sentinel data; a time.Time is the
    instant the wall clock showed. *)
Record StreamSentinelDto : Type := {
  StartLocalTime : Z;
  FinishLocalTime : Z;
  SentinelUserData : UserData;
}.

(** internal.Uploader, the fields the loader reads. *)
Record Uploader : Type := {
  UploadingFolder : Folder;
  Uploader_Compressor : Compressor;
}.

(** StorageDownloader extends base folder with mongodb specific. *)
Record StorageDownloader : Type := {
  folder : Folder;
}.

(** StorageUploader extends base uploader with mongodb specific. *)
Record StorageUploader : Type := {
  Uploader_of : Uploader;
}.

(** The readings of the wall clock and the calls of package internal that
    reach the remote storage. *)
Inductive Call : Type :=
| CallTimeNow (reading : Z)
| CallPushStream (into : Folder) (stream : list byte)
| CallPushStreamToDestination (into : Folder) (stream : list byte) (dstPath : string)
| CallUploadSentinel (into : Folder) (dto : StreamSentinelDto) (backupName : string)
| CallDownloadFile (from : Folder) (name ext : string).

(** The remote side and the process configuration: what was asked so
    far, what the wall clock shows after that (it is set from outside and
    need not move forward), what each call answers, the name PushStream
    gives to a backup, and what the configuration yields. *)
Record Remote : Type := {
  journal : list Call;
  wallClock : list Call -> Z;
  answer : Call -> option error;
  backupNameOf : list byte -> string;
  downloaded : string -> string -> list byte;
  configuredFolder : res Folder;
  configuredUploader : res Uploader;
  sentinelUserData : UserData;
}.

Definition IO (A : Type) : Type := Remote -> A * Remote.

Definition journalled (c : Call) (s : Remote) : Remote :=
  {| journal := journal s ++ [c]; wallClock := wallClock s;
     answer := answer s; backupNameOf := backupNameOf s;
     downloaded := downloaded s;
     configuredFolder := configuredFolder s;
     configuredUploader := configuredUploader s;
     sentinelUserData := sentinelUserData s |}.

(** One call: it is journalled and the table answers. *)
Definition call (c : Call) : IO (option error) :=
  fun s => (answer s c, journalled c s).

(** utility.TimeNowCrossPlatformLocal: one reading of the wall clock. *)
Definition TimeNowCrossPlatformLocal : IO Z :=
  fun s =>
    let reading := wallClock s (journal s) in
    (reading, journalled (CallTimeNow reading) s).

(** internal.ConfigureFolder, internal.ConfigureUploader,
    internal.GetSentinelUserData. *)
Definition ConfigureFolder : IO (res Folder) := fun s => (configuredFolder s, s).
Definition ConfigureUploader : IO (res Uploader) := fun s => (configuredUploader s, s).
Definition GetSentinelUserData : IO UserData := fun s => (sentinelUserData s, s).

(** Uploader.PushStream, Uploader.PushStreamToDestination,
    internal.UploadSentinel, internal.DownloadFile. *)
Definition PushStream (u : Uploader) (stream : list byte) : IO (res string) :=
  fun s =>
    let '(err, s') := call (CallPushStream (UploadingFolder u) stream) s in
    match err with
    | Some e => (Failure e, s')
    | None => (Success (backupNameOf s stream), s')
    end.

Definition PushStreamToDestination (u : Uploader) (stream : list byte)
    (dstPath : string) : IO (option error) :=
  call (CallPushStreamToDestination (UploadingFolder u) stream dstPath).

Definition UploadSentinel (u : Uploader) (dto : StreamSentinelDto)
    (backupName : string) : IO (option error) :=
  call (CallUploadSentinel (UploadingFolder u) dto backupName).

(** What an io.WriteCloser has received. *)
Definition DownloadFile (f : Folder) (name ext : string) (written : list byte)
    : IO (option error * list byte) :=
  fun s =>
    let '(err, s') := call (CallDownloadFile f name ext) s in
    match err with
    | Some e => ((Some e, written), s')
    | None => ((None, written ++ downloaded s name ext), s')
    end.

(** fmt.Errorf with a trailing ": %w". *)
Definition Errorf_w (msg : string) (err : error) : error := Wrapped err msg.

(** NewStorageDownloader builds mongodb downloader. *)
Definition NewStorageDownloader (path : string) : IO (res StorageDownloader) :=
  fun s =>
    let '(configured, s1) := ConfigureFolder s in
    match configured with
    | Failure err => (Failure err, s1)
    | Success folder =>
        let folder := GetSubFolder folder path in
        (Success {| folder := folder |}, s1)
    end.

(** DownloadOplogArchive downloads, decompresses and decrypts (if needed)
    oplog archive. *)
Definition DownloadOplogArchive (sd : StorageDownloader) (arch : OplogArchive)
    (writeCloser : list byte) : IO (option error * list byte) :=
  DownloadFile (folder sd) (Filename arch) (Extension arch) writeCloser.

(** The loop of ListOplogArchives over the listed objects. *)
Fixpoint convertAll (objects : list Object) (archives : list OplogArchive)
    : res (list OplogArchive) :=
  match objects with
  | [] => Success archives
  | key :: rest =>
      let archName := GetName key in
      match ArchFromFilename archName with
      | Failure err =>
          Failure (Errorf_w
                     ("can not convert retrieve timestamps from oplog archive Ext '"
                      +:+ archName +:+ "'") err)
      | Success arch => convertAll rest (archives ++ [arch])
      end
  end.

(** ListOplogArchives fetches all oplog archives existed in storage. *)
Definition ListOplogArchives (sd : StorageDownloader) : res (list OplogArchive) :=
  match ListFolder (folder sd) with
  | Failure err => Failure (Errorf_w "can not list archive folder" err)
  | Success (objects, _) => convertAll objects []
  end.

(** NewStorageUploader builds mongodb uploader. *)
Definition NewStorageUploader (path : string) : IO (res StorageUploader) :=
  fun s =>
    let '(configured, s1) := ConfigureUploader s in
    match configured with
    | Failure err => (Failure err, s1)
    | Success uploader =>
        let uploader :=
          if negb (bool_decide (path = ""))
          then {| UploadingFolder := GetSubFolder (UploadingFolder uploader) path;
                  Uploader_Compressor := Uploader_Compressor uploader |}
          else uploader in
        (Success {| Uploader_of := uploader |}, s1)
    end.

(** UploadOplogArchive compresses a stream and uploads it with given
    archive name. *)
Definition UploadOplogArchive (su : StorageUploader) (stream : list byte)
    (arch : OplogArchive) : IO (option error) :=
  fun s =>
    let '(err, s1) := PushStreamToDestination (Uploader_of su) stream (Filename arch) s in
    match err with
    | Some e => (Some (Errorf_w "error while uploading stream" e), s1)
    | None => (None, s1)
    end.

(** UploadBackup compresses a stream and uploads it. *)
Definition UploadBackup (su : StorageUploader) (stream : list byte) : IO (option error) :=
  fun s =>
    let '(timeStart, s0) := TimeNowCrossPlatformLocal s in
    let '(pushed, s1) := PushStream (Uploader_of su) stream s0 in
    match pushed with
    | Failure err => (Some err, s1)
    | Success backupName =>
        let '(finish, s2) := TimeNowCrossPlatformLocal s1 in
        let '(userData, s3) := GetSentinelUserData s2 in
        let currentBackupSentinelDto :=
          {| StartLocalTime := timeStart; FinishLocalTime := finish;
             SentinelUserData := userData |} in
        UploadSentinel (Uploader_of su) currentBackupSentinelDto backupName s3
    end.

(** FileExtension returns current file extension (based on configured
    compression). *)
Definition FileExtension (su : StorageUploader) : string :=
  Compressor_FileExtension (Uploader_Compressor (Uploader_of su)).

End Loader.

End Archive.

(** ** Registration of the brotli codec (package compression) *)
Module Compression.

Section Registry.

(** The decompressor and compressor types, the two brotli values and
    brotli.AlgorithmName are declared outside this file. *)
Context {DecompressorT CompressorT : Type}.
Variable brotli_Decompressor : DecompressorT.
Variable brotli_Compressor : CompressorT.
Variable brotli_AlgorithmName : string.

(** The package-level variables. *)
Record Registry : Type := {
  Decompressors : list DecompressorT;
  Compressors : gmap string CompressorT;
  CompressingAlgorithms : list string;
}.

Definition init (r : Registry) : Registry :=
  {| Decompressors := Decompressors r ++ [brotli_Decompressor];
     Compressors := <[brotli_AlgorithmName := brotli_Compressor]> (Compressors r);
     CompressingAlgorithms := CompressingAlgorithms r ++ [brotli_AlgorithmName] |}.

(** Every algorithm that is announced has a compressor. *)
Definition consistent (r : Registry) : Prop :=
  ∀ name, name ∈ CompressingAlgorithms r → is_Some (Compressors r !! name).

End Registry.

End Compression.

(** A concrete remote side for the loader: folders are path names, an
    archive is the name of its file, and only names that start with
    "oplog_" are names of archives. *)
Module ArchiveSample.

Definition named (n : string) : Archive.Object := {| Archive.GetName := n |}.

Definition collaborators : Archive.Collaborators :=
  {| Archive.Folder := string;
     Archive.GetSubFolder := fun f p => f +:+ p;
     Archive.ListFolder := fun f =>
       if decide (f = "oplog/")
       then Success ([named "oplog_1_2.br"; named "junk"; named "oplog_2_3.br"], [])
       else if decide (f = "clean/")
       then Success ([named "oplog_2_3.br"; named "oplog_1_2.br"], ["clean/old/"])
       else Failure (ReadError "no such folder");
     Archive.OplogArchive := string;
     Archive.ArchFromFilename := fun n =>
       if String.prefix "oplog_" n then Success n
       else Failure (ReadError "not an oplog archive");
     Archive.Filename := fun a => a;
     Archive.Extension := fun _ => "br";
     Archive.Compressor := string;
     Archive.Compressor_FileExtension := fun c => c;
     Archive.UserData := string |}.

Definition downloader (f : string) : @Archive.StorageDownloader collaborators :=
  @Archive.Build_StorageDownloader collaborators f.

Definition registry : Compression.Registry :=
  {| Compression.Decompressors := ["lz4-decompressor"];
     Compression.Compressors := {[ "lz4" := "lz4-compressor" ]};
     Compression.CompressingAlgorithms := ["lz4"] |}.

End ArchiveSample.

(** ** A small concrete environment

    Used to run the interpreter on examples: a path join for clean
    operands, a toy wire format for increments (one byte for the final
    size, then per block one byte for its number and the block's bytes),
    and worlds to start from. *)
Module Sample.

Definition join (dir name : string) : string :=
  if decide (dir = "") then name else dir +:+ "/" +:+ name.

Fixpoint blocks_of (bs fuel : nat) (l : list byte) : option (list (nat * list byte)) :=
  match fuel, l with
  | _, [] => Some []
  | O, _ => None
  | S fuel', n :: rest =>
      if decide (bs ≤ length rest)%nat
      then option_map (cons (Byte.to_nat n, take bs rest))
             (blocks_of bs fuel' (drop bs rest))
      else None
  end.

Definition readIncrement (bs : nat) (l : list byte) : option Increment :=
  match l with
  | [] => None
  | size :: rest =>
      option_map (fun bl => {| inc_size := Byte.to_nat size; inc_blocks := bl |})
        (blocks_of bs (length rest) rest)
  end.

Definition noNewUnwrap (t : FileTarInterpreter) (r : Reader) (h : Header)
    (p : string) (fsync : bool) : Go (option error) := ret None.

Definition bytes (s : string) : list byte := list_byte_of_string s.

Definition modeKey : string := "WALG_TAR_FSYNC_MODE".
Definition legacyKey : string := "WALG_TAR_DISABLE_FSYNC".

Definition settings (mode : string) (legacy : option bool) : Viper :=
  {| GetString := fun k => if decide (k = modeKey) then mode else "";
     IsSet := fun k => bool_decide (k = legacyKey) && bool_decide (is_Some legacy);
     GetBool := fun k => bool_decide (k = legacyKey) && default false legacy |}.

Definition healthy : Syscall -> string -> Z := fun _ _ => 0.

Definition world (files : gmap string Node) (mode : string) (legacy : option bool)
    (f : Syscall -> string -> Z) : World :=
  {| fs := files; trace := []; viper := settings mode legacy;
     faults := f; short_write := fun _ => 0%nat |}.

Definition dataDir : gmap string Node := {[ "/data" := Dir perm_0755 ]}.

Definition interpreter (sel : option (gmap string bool)) (incremental : bool)
    (incremented : list string) (createNew : bool) : FileTarInterpreter :=
  NewFileTarInterpreter "/data" {| IsIncremental := incremental |}
    {| Files := list_to_map (map (fun n => (n, {| IsIncremented := true |})) incremented) |}
    sel createNew.

Definition entry (name : string) (flag : ascii) : Header :=
  {| Name := name; Typeflag := flag; Mode := 420; Linkname := "" |}.

(** An entry as tar writes it for a file of type and permission bits
    [mode] (0100644 for a regular file of mode 0644, 040755 for a
    directory of mode 0755); a link entry with its target name. *)
Definition entryOfMode (name : string) (flag : ascii) (mode : Z) : Header :=
  {| Name := name; Typeflag := flag; Mode := mode; Linkname := "" |}.

Definition linkEntry (name : string) (flag : ascii) (linkname : string) : Header :=
  {| Name := name; Typeflag := flag; Mode := 511; Linkname := linkname |}.

Definition full (s : string) : Reader := {| r_data := bytes s; r_err := None |}.

Definition broken (s : string) : Reader :=
  {| r_data := bytes s; r_err := Some (ReadError "unexpected EOF") |}.

Definition handle (name : string) : File :=
  {| File_Name := name; File_offset := 0 |}.

(** The increment stream with final size 12 and the one block
    (1, "BBBB"), in the toy wire format. *)
Definition oneBlock : Reader :=
  {| r_data := Byte.x0c :: Byte.x01 :: bytes "BBBB"; r_err := None |}.

End Sample.

(** ** The interpreter *)

(** WriteLocalFile: write file from reader to local file. *)
Definition WriteLocalFile (fileReader : Reader) (header : Header)
    (localFile : File) (fsync : bool) : Go (option error) :=
  let* '(_, err) := io_Copy localFile fileReader in
  match err with
  | Some e =>
      let* err1 := os_Remove (File_Name localFile) in
      match err1 with
      | Some e1 =>
          Fatalf "Interpret: failed to remove localFile '%s' because of error: %v"
            [AStr (File_Name localFile); AErr e1]
      | None => ret (Some (Wrapped e "Interpret: copy failed"))
      end
  | None =>
      let mode := os_FileMode (Mode header) in
      let* err := File_Chmod localFile mode in
      match err with
      | Some e => ret (Some (Wrapped e "Interpret: chmod failed"))
      | None =>
          if fsync
          then let* err := File_Sync localFile in
               ret (errors_Wrap err "Interpret: fsync failed")
          else ret None
      end
  end.

(** PrepareDirs makes sure all dirs exist. *)
Definition PrepareDirs (fileName targetPath : string) : Go (option error) :=
  if decide (fileName = targetPath)
  then ret None
  else
    let base := filepath_Base fileName in
    let dir := strings_TrimSuffix targetPath base in
    os_MkdirAll dir perm_0755.

Section Restore.

(** What the interpreter takes from the rest of the repository and from
    the Go library without this file looking inside. *)

(** The block size of increments and the reader of their wire format. *)
Variable blockSize : nat.
Variable ReadIncrement : list byte -> option Increment.

(** path.Join. *)
Variable path_Join : string -> string -> string.

(** The switch to the new unwrap logic, and that logic. *)
Variable useNewUnwrapImplementation : bool.
Variable unwrapRegularFileNew :
  FileTarInterpreter -> Reader -> Header -> string -> bool -> Go (option error).

(** internal.TarFsyncMode and internal.TarDisableFsyncSetting (names of
    settings), internal.DEFAULT, internal.GLOBAL and internal.DISABLED
    (values of the first). *)
Variable TarFsyncMode TarDisableFsyncSetting : string.
Variable DEFAULT GLOBAL DISABLED : string.

Definition deprecatedFileSyncMessage : string :=
  "You are using deprecated functionality that uses an inefficient fsync-for-every-file logic."
  +:+ nl +:+ "It will be removed in next major version."
  +:+ nl +:+ "Please use file sync mode using environment variable " +:+ TarFsyncMode
  +:+ " instead of using " +:+ TarDisableFsyncSetting +:+ "." +:+ nl.

Definition fallingBackFileSyncMessage : string :=
  "Falling back to " +:+ DISABLED +:+ " file sync mode.".

(** File.WriteAt of every block of the stream, in order, block [n] at
    offset [n * blockSize]; the first failure stops it. *)
Fixpoint write_blocks (file : File) (blocks : list (nat * list byte)) : Go (option error) :=
  match blocks with
  | [] => ret None
  | (blockNo, page) :: rest =>
      let* '(_, err) := write_at (File_Name file) (blockNo * blockSize) page in
      match err with
      | Some e => ret (Some e)
      | None => write_blocks file rest
      end
  end.

Definition well_framed (inc : Increment) : bool :=
  forallb (fun b => bool_decide (length b.2 = blockSize)) (inc_blocks inc).

(** Every block is blockSize bytes long. *)
Definition framed (blocks : list (nat * list byte)) : Prop :=
  Forall (fun b : nat * list byte => length b.2 = blockSize) blocks.

(** Modelled from the spec: ApplyFileIncrement is defined outside src.
    Spec 4.3, increment path: the reader holds an increment stream, pairs
    of a block number and blockSize bytes.  With create-new-incremental-
    files the target is created (or replaced), allocated zero-filled at its
    final size, and each block is written at blockNumber * blockSize;
    without it the target must exist, is opened for in-place writes, and
    only the byte ranges of the stream are overwritten.  The file is
    fsynced when asked. *)
Definition ApplyFileIncrement (fileName : string) (increment : Reader)
    (createNewIncrementalFiles fsync : bool) : Go (option error) :=
  match r_err increment, ReadIncrement (r_data increment) with
  | Some e, _ => ret (Some e)
  | None, None => ret (Some (ReadError "invalid increment stream"))
  | None, Some inc =>
      if negb (well_framed inc)
      then ret (Some (ReadError "invalid increment stream"))
      else
        let openFlags :=
          if createNewIncrementalFiles
          then Z.lor O_RDWR (Z.lor O_CREATE O_TRUNC) else O_RDWR in
        let* opened := os_OpenFile fileName openFlags perm_0666 in
        match opened with
        | Failure e => ret (Some e)
        | Success file =>
            let* err :=
              (let* err := (if createNewIncrementalFiles
                            then File_Truncate file (inc_size inc) else ret None) in
               match err with
               | Some e => ret (Some e)
               | None =>
                   let* err := write_blocks file (inc_blocks inc) in
                   match err with
                   | Some e => ret (Some e)
                   | None => if fsync then File_Sync file else ret None
                   end
               end) in
            let* _ := LoggedClose file in
            ret err
        end
  end.

Definition unwrapRegularFileOld (tarInterpreter : FileTarInterpreter)
    (fileReader : Reader) (fileInfo : Header) (targetPath : string)
    (fsync : bool) : Go (option error) :=
  let skipped :=
    match FilesToUnwrap tarInterpreter with
    | Some filesToUnwrap =>
        negb (bool_decide (is_Some (filesToUnwrap !! Name fileInfo)))
    | None => false
    end in
  if skipped
  then
    (* don't have to unwrap it this time *)
    let* _ := Debugf ("Don't have to unwrap '%s' this time" +:+ nl)
                [AStr (Name fileInfo)] in
    ret None
  else
    let found := Files (FilesMetadata tarInterpreter) !! Name fileInfo in
    let fileDescription := default zeroFileDescription found in
    let haveFileDescription := bool_decide (is_Some found) in
    (* If this file is incremental we use it's base version from incremental path *)
    if haveFileDescription && IsIncremental (Sentinel tarInterpreter)
       && IsIncremented fileDescription
    then
      let* err := ApplyFileIncrement targetPath fileReader
                    (createNewIncrementalFiles tarInterpreter) fsync in
      ret (errors_Wrap err
             ("Interpret: failed to apply increment for '" +:+ targetPath +:+ "'"))
    else
      let* err := PrepareDirs (Name fileInfo) targetPath in
      match err with
      | Some e => ret (Some (Wrapped e "Interpret: failed to create all directories"))
      | None =>
          let* opened := os_OpenFile targetPath
                           (Z.lor O_WRONLY (Z.lor O_CREATE O_TRUNC)) perm_0666 in
          match opened with
          | Failure e =>
              ret (Some (Wrapped e ("failed to create new file: '" +:+ targetPath +:+ "'")))
          | Success file =>
              let* result := WriteLocalFile fileReader fileInfo file fsync in
              let* _ := LoggedClose file in
              ret result
          end
      end.

(** The restore selection lets an entry name through: none is configured,
    or the name is a member of the configured one. *)
Definition accepted (t : FileTarInterpreter) (name : string) : Prop :=
  FilesToUnwrap t = None
  ∨ ∃ selection, FilesToUnwrap t = Some selection ∧ is_Some (selection !! name).

(** A restore selection is configured and the name is not a member. *)
Definition excluded (t : FileTarInterpreter) (name : string) : Prop :=
  ∃ selection, FilesToUnwrap t = Some selection ∧ selection !! name = None.

(** The two treatments of a content reader that spec 4.3 names.  The
    increment path: the reader is an increment stream, applied to the
    target. *)
Definition incrementPath (t : FileTarInterpreter) (contentReader : Reader)
    (targetPath : string) (fsync : bool) : Go (option error) :=
  let* err := ApplyFileIncrement targetPath contentReader
                (createNewIncrementalFiles t) fsync in
  ret (errors_Wrap err
         ("Interpret: failed to apply increment for '" +:+ targetPath +:+ "'")).

(** The full-file path: ensure the parent directory, create or truncate
    the target, copy all bytes of the reader, apply the mode bits,
    optionally fsync. *)
Definition fullFilePath (contentReader : Reader) (entry : Header)
    (targetPath : string) (fsync : bool) : Go (option error) :=
  let* err := PrepareDirs (Name entry) targetPath in
  match err with
  | Some e => ret (Some (Wrapped e "Interpret: failed to create all directories"))
  | None =>
      let* opened := os_OpenFile targetPath
                       (Z.lor O_WRONLY (Z.lor O_CREATE O_TRUNC)) perm_0666 in
      match opened with
      | Failure e =>
          ret (Some (Wrapped e ("failed to create new file: '" +:+ targetPath +:+ "'")))
      | Success file =>
          let* result := WriteLocalFile contentReader entry file fsync in
          let* _ := LoggedClose file in
          ret result
      end
  end.

(** Interpret extracts a tar file to disk and creates needed directories.
    Returns the first error encountered. *)
Definition Interpret (tarInterpreter : FileTarInterpreter)
    (fileReader : Reader) (fileInfo : Header) : Go (option error) :=
  let* _ := Debugln "Interpreting: " (Name fileInfo) in
  let targetPath := path_Join (DBDataDirectory tarInterpreter) (Name fileInfo) in
  let flag := Typeflag fileInfo in
  if bool_decide (flag = TypeReg) || bool_decide (flag = TypeRegA) then
    (* temporary switch to determine if new unwrap logic should be used *)
    if useNewUnwrapImplementation
    then unwrapRegularFileNew tarInterpreter fileReader fileInfo targetPath false
    else unwrapRegularFileOld tarInterpreter fileReader fileInfo targetPath false
  else if bool_decide (flag = TypeDir) then
    let* err := os_MkdirAll targetPath perm_0755 in
    match err with
    | Some e =>
        ret (Some (Wrapped e ("Interpret: failed to create all directories in " +:+ targetPath)))
    | None =>
        let* err := os_Chmod targetPath (os_FileMode (Mode fileInfo)) in
        match err with
        | Some e => ret (Some (Wrapped e "Interpret: chmod failed"))
        | None => ret None
        end
    end
  else if bool_decide (flag = TypeLink) then
    let* err := os_Link (Name fileInfo) targetPath in
    match err with
    | Some e => ret (Some (Wrapped e ("Interpret: failed to create hardlink " +:+ targetPath)))
    | None => ret None
    end
  else if bool_decide (flag = TypeSymlink) then
    let* err := os_Symlink (Name fileInfo) targetPath in
    match err with
    | Some e => ret (Some (Wrapped e ("Interpret: failed to create symlink " +:+ targetPath)))
    | None => ret None
    end
  else ret None.

Definition getFileSyncMode : Go string :=
  let* fsyncMode := viper_GetString TarFsyncMode in
  let* isSet := viper_IsSet TarDisableFsyncSetting in
  if isSet
  then
    let* _ := Warningf deprecatedFileSyncMessage [] in
    let* fallBack := (if bool_decide (fsyncMode = DEFAULT)
                      then viper_GetBool TarDisableFsyncSetting else ret false) in
    if fallBack
    then
      let* _ := Warningf fallingBackFileSyncMessage [] in
      ret DISABLED
    else ret fsyncMode
  else ret fsyncMode.

Definition OnInterpretFinish (tarInterpreter : FileTarInterpreter) : Go (option error) :=
  let* fileSyncMode := getFileSyncMode in
  if bool_decide (fileSyncMode = GLOBAL) || bool_decide (fileSyncMode = DEFAULT)
  then
    let* err := unix_Sync in
    if decide (err ≠ 0)
    then ret (Some (ErrorfD "FileTarInterpreter: global fsync failed with error code %d" err))
    else ret None
  else ret None.

(** ** Properties *)

(** *** File contents *)

Lemma pwrite_empty_file (data : list byte) : pwrite [] 0 data = data.
Proof.
  destruct data as [|b data]; [reflexivity|].
  unfold pwrite. simpl. now rewrite app_nil_r.
Qed.

Lemma lookup_pwrite (content : list byte) (off : nat) (data : list byte) (i : nat) :
  data ≠ [] →
  pwrite content off data !! i =
    if decide (i < off)%nat
    then (if decide (i < length content)%nat then content !! i else Some Byte.x00)
    else if decide (i < off + length data)%nat then data !! (i - off)%nat
         else content !! i.
Proof.
  intros Hne. unfold pwrite. destruct data as [|b data]; [done|]. clear Hne.
  remember (b :: data) as d eqn:Hd. clear Hd b data.
  assert (Hlen : length (take off (content ++ zeros (off - length content))) = off).
  { rewrite length_take, length_app. unfold zeros. rewrite length_replicate. lia. }
  destruct (decide (i < off)%nat) as [Hlt|Hge].
  - rewrite lookup_app_l by lia. rewrite lookup_take_lt by lia.
    destruct (decide (i < length content)%nat).
    + now rewrite lookup_app_l by lia.
    + rewrite lookup_app_r by lia. unfold zeros.
      apply lookup_replicate_2. lia.
  - rewrite lookup_app_r by lia. rewrite Hlen.
    destruct (decide (i < off + length d)%nat).
    + now rewrite lookup_app_l by lia.
    + rewrite lookup_app_r by lia. rewrite lookup_drop. f_equal. lia.
Qed.

Lemma length_pwrite (content : list byte) (off : nat) (data : list byte) :
  data ≠ [] →
  length (pwrite content off data) = (length content `max` (off + length data))%nat.
Proof.
  intros Hne. unfold pwrite. destruct data as [|b data]; [done|]. clear Hne.
  remember (b :: data) as d eqn:Hd. clear Hd b data.
  rewrite !length_app, length_take, length_app, length_drop.
  unfold zeros. rewrite length_replicate. lia.
Qed.

Lemma length_pwrite_ge (content : list byte) (off : nat) (data : list byte) :
  (length content ≤ length (pwrite content off data))%nat.
Proof.
  destruct data as [|b data]; [reflexivity|].
  rewrite length_pwrite by done. lia.
Qed.

(** Outside the written range the old bytes stay. *)
Lemma lookup_pwrite_old (content : list byte) (off : nat) (data : list byte) (i : nat) :
  ¬ (off ≤ i < off + length data)%nat →
  (i < length content)%nat →
  pwrite content off data !! i = content !! i.
Proof.
  intros Hout Hi. destruct data as [|b data]; [reflexivity|].
  rewrite lookup_pwrite by done.
  repeat case_decide; try reflexivity; lia.
Qed.

(** Outside the written range, what was not there before reads as zero. *)
Lemma lookup_pwrite_gap (content : list byte) (off : nat) (data : list byte) (i : nat) :
  ¬ (off ≤ i < off + length data)%nat →
  (length content ≤ i < length (pwrite content off data))%nat →
  pwrite content off data !! i = Some Byte.x00.
Proof.
  intros Hout Hi. destruct data as [|b data]; [simpl in Hi; lia|].
  rewrite length_pwrite in Hi by done.
  rewrite lookup_pwrite by done.
  repeat case_decide; try reflexivity; lia.
Qed.

(** The written range holds the data. *)
Lemma slice_pwrite (content : list byte) (off : nat) (data : list byte) :
  slice (pwrite content off data) off (length data) = data.
Proof.
  destruct data as [|b data]; [unfold slice; now rewrite take_0|].
  assert (Hne : b :: data ≠ []) by done.
  remember (b :: data) as d eqn:Hd. clear Hd b data. apply list_eq. intros i. unfold slice.
  destruct (decide (i < length d)%nat) as [Hi|Hi].
  - rewrite lookup_take_lt, lookup_drop by (clear Hne; lia).
    rewrite lookup_pwrite by done. clear Hne.
    repeat case_decide; try lia. f_equal. lia.
  - clear Hne. rewrite lookup_take_ge by lia. symmetry. apply lookup_ge_None. lia.
Qed.

(** A range that lies inside the file and apart from the written one is
    kept. *)
Lemma slice_pwrite_apart (content : list byte) (off : nat) (data : list byte) (o n : nat) :
  (o + n ≤ off ∨ off + length data ≤ o)%nat →
  (o + n ≤ length content)%nat →
  slice (pwrite content off data) o n = slice content o n.
Proof.
  intros Hapart Hin. apply list_eq. intros i. unfold slice.
  destruct (decide (i < n)%nat) as [Hi|Hi].
  - rewrite !lookup_take_lt, !lookup_drop by lia.
    apply lookup_pwrite_old; lia.
  - now rewrite !lookup_take_ge by lia.
Qed.

(** *** The monad *)

Lemma bind_Returned {A B : Type} (m : Go A) (k : A → Go B) (w w' : World) (b : B) :
  bind m k w = Returned b w' →
  ∃ a w1, m w = Returned a w1 ∧ k a w1 = Returned b w'.
Proof. unfold bind. destruct (m w) as [a w1|w1]; [eauto|discriminate]. Qed.

(** *** Mode bits *)

(** A header mode without Go's own flag bits (below 2^20: the permission
    bits, and the type, set-uid, set-gid and sticky bits as tar and Unix
    write them) reaches chmod as its nine permission bits. *)
Lemma syscallMode_below (m : Z) :
  0 ≤ m < 2 ^ 20 → syscallMode (os_FileMode m) = m mod 512.
Proof.
  intros Hm. unfold syscallMode, os_FileMode.
  rewrite Z.mod_small by lia.
  assert (Hbit : ∀ n, 20 ≤ n → Z.testbit m n = false).
  { intros n Hn. destruct (decide (m = 0)) as [->|Hpos]; [apply Z.bits_0|].
    apply Z.bits_above_log2; [lia|].
    apply Z.log2_lt_pow2; [lia|].
    assert (2 ^ 20 ≤ 2 ^ n) by (apply Z.pow_le_mono_r; lia). lia. }
  unfold ModeSetuid_bit, ModeSetgid_bit, ModeSticky_bit.
  rewrite !Hbit by lia. rewrite !Z.lor_0_r.
  change ModePerm with (Z.ones 9). rewrite Z.land_ones by lia. reflexivity.
Qed.

(** Permission bits pass as they are. *)
Lemma syscallMode_of_permissions (m : Z) :
  0 ≤ m ≤ ModePerm → syscallMode (os_FileMode m) = m.
Proof.
  unfold ModePerm. intros Hm. rewrite syscallMode_below by lia.
  apply Z.mod_small. lia.
Qed.

(** *** Durability policy *)

Ltac run :=
  unfold bind, ret, emit, Warningf, Debugf, Debugln, viper_GetString,
    viper_IsSet, viper_GetBool, unix_Sync in *; simpl in *.

Ltac not_in_trace :=
  repeat (apply not_elem_of_cons; split; [discriminate|]); apply not_elem_of_nil.

(** Resolving the mode only logs: files and faults are as before, and no
    system call is issued. *)
Lemma getFileSyncMode_logs_only (w w1 : World) (m : string) :
  getFileSyncMode w = Returned m w1 →
  fs w1 = fs w ∧ faults w1 = faults w ∧
  ∃ logs, trace w1 = trace w ++ logs ∧ EvSync ∉ logs.
Proof.
  unfold getFileSyncMode. run.
  destruct (IsSet (viper w) TarDisableFsyncSetting).
  - destruct (bool_decide (GetString (viper w) TarFsyncMode = DEFAULT));
      simpl; [destruct (GetBool (viper w) TarDisableFsyncSetting)|];
      intros [= <- <-]; simpl; repeat split.
    + exists [EvLog WarningLevel deprecatedFileSyncMessage [];
              EvLog WarningLevel fallingBackFileSyncMessage []].
      split; [now rewrite <- app_assoc|]. not_in_trace.
    + exists [EvLog WarningLevel deprecatedFileSyncMessage []].
      split; [reflexivity|]. not_in_trace.
    + exists [EvLog WarningLevel deprecatedFileSyncMessage []].
      split; [reflexivity|]. not_in_trace.
  - intros [= <- <-]. repeat split. exists []. split; [now rewrite app_nil_r|].
    not_in_trace.
Qed.

(** C3: with the legacy boolean true and the mode setting at Default the
    resolved mode is Disabled and two distinct warnings are logged; with
    the mode setting at Global and the legacy boolean true the resolved
    mode is Global and only the deprecation warning is logged; a mode
    setting of Disabled resolves to Disabled whatever the legacy boolean
    is. *)
Theorem getFileSyncMode_resolution (w : World) :
  GLOBAL ≠ DEFAULT →
  let legacy := IsSet (viper w) TarDisableFsyncSetting = true
                ∧ GetBool (viper w) TarDisableFsyncSetting = true in
  let deprecation := EvLog WarningLevel deprecatedFileSyncMessage [] in
  let fallback := EvLog WarningLevel fallingBackFileSyncMessage [] in
  (legacy → GetString (viper w) TarFsyncMode = DEFAULT →
     ∃ w', getFileSyncMode w = Returned DISABLED w'
           ∧ trace w' = trace w ++ [deprecation; fallback]
           ∧ deprecation ≠ fallback) ∧
  (legacy → GetString (viper w) TarFsyncMode = GLOBAL →
     ∃ w', getFileSyncMode w = Returned GLOBAL w'
           ∧ trace w' = trace w ++ [deprecation]) ∧
  (GetString (viper w) TarFsyncMode = DISABLED →
     ∃ w', getFileSyncMode w = Returned DISABLED w').
Proof.
  intros Hgd legacy deprecation fallback. unfold getFileSyncMode. run.
  repeat split.
  - intros [Hset Hbool] Hmode. rewrite Hset, Hmode, bool_decide_eq_true_2 by done.
    simpl. rewrite Hbool. eexists. split; [reflexivity|]. simpl. split.
    + now rewrite <- app_assoc.
    + unfold deprecation, fallback, deprecatedFileSyncMessage,
        fallingBackFileSyncMessage. simpl. discriminate.
  - intros [Hset Hbool] Hmode. rewrite Hset, Hmode, bool_decide_eq_false_2 by done.
    eexists. split; reflexivity.
  - intros Hmode. rewrite Hmode.
    destruct (IsSet (viper w) TarDisableFsyncSetting); [|eauto].
    destruct (bool_decide (DISABLED = DEFAULT)) eqn:Hd; [|eauto].
    simpl. destruct (GetBool (viper w) TarDisableFsyncSetting); eauto.
Qed.

(** C5: when the resolved mode is Global the finalize hook issues one
    sync of the whole file system and, when that reports a non-zero error
    code, returns an error holding this code; when the resolved mode is
    Disabled it issues no call at all and returns no error. *)
Theorem OnInterpretFinish_by_mode (t : FileTarInterpreter) (w w1 : World) :
  DISABLED ≠ GLOBAL → DISABLED ≠ DEFAULT →
  (getFileSyncMode w = Returned GLOBAL w1 →
     OnInterpretFinish t w =
       Returned
         (if decide (faults w SysSync "" = 0) then None
          else Some (ErrorfD "FileTarInterpreter: global fsync failed with error code %d"
                       (faults w SysSync "")))
         (record EvSync w1)
     ∧ ∃ logs, trace (record EvSync w1) = trace w ++ logs ++ [EvSync] ∧ EvSync ∉ logs) ∧
  (getFileSyncMode w = Returned DISABLED w1 →
     OnInterpretFinish t w = Returned None w1
     ∧ fs w1 = fs w
     ∧ ∃ logs, trace w1 = trace w ++ logs ∧ EvSync ∉ logs).
Proof.
  intros Hdg Hdd. split; intros Hmode;
    destruct (getFileSyncMode_logs_only _ _ _ Hmode) as (Hfs & Hfaults & logs & Htr & Hno);
    unfold OnInterpretFinish, bind; rewrite Hmode.
  - rewrite bool_decide_eq_true_2 by done. run. rewrite Hfaults. split.
    + destruct (decide (faults w SysSync "" = 0)) as [->|Hne]; [reflexivity|].
      destruct (decide (faults w SysSync "" ≠ 0)); [reflexivity|done].
    + exists logs. rewrite Htr. split; [now rewrite <- app_assoc|done].
  - rewrite !bool_decide_eq_false_2 by done. run. eauto.
Qed.

(** *** Full-file write *)

Ltac run_os :=
  unfold WriteLocalFile, io_Copy, write_at, os_Remove, File_Chmod, File_Sync,
    LoggedClose, Fatalf, guarded in *; run.

(** C2: when the copy fails, WriteLocalFile removes the file before it
    returns: whenever the call returns, it returns the copy error and the
    target name is absent; it does return as soon as the removal succeeds
    (the file is there and unlink reports nothing); when the removal fails
    the process exits instead of returning. *)
Theorem WriteLocalFile_copy_failure (fileReader : Reader) (header : Header)
    (localFile : File) (fsync : bool) (w w1 : World) (n : nat) (e0 : error) :
  io_Copy localFile fileReader w = Returned (n, Some e0) w1 →
  let name := File_Name localFile in
  (∀ result w', WriteLocalFile fileReader header localFile fsync w = Returned result w' →
     result = Some (Wrapped e0 "Interpret: copy failed")
     ∧ fs w' !! key name = None
     ∧ trace w' = trace w1 ++ [EvUnlink name]) ∧
  (faults w SysUnlink name = 0 → is_Some (fs w !! key name) →
     ∃ w', WriteLocalFile fileReader header localFile fsync w
           = Returned (Some (Wrapped e0 "Interpret: copy failed")) w') ∧
  (faults w SysUnlink name ≠ 0 ∨ fs w !! key name = None →
     ∃ w', WriteLocalFile fileReader header localFile fsync w = Exited w').
Proof.
  intros Hcopy name. unfold WriteLocalFile, bind. rewrite Hcopy.
  assert (Hw1 : faults w1 = faults w ∧
                (is_Some (fs w1 !! key name) ↔ is_Some (fs w !! key name))).
  { revert Hcopy. run_os. fold name.
    destruct (r_data fileReader) as [|b data'].
    { intros [= _ _ <-]. split; reflexivity. }
    destruct (fs w !! key name) as [[data mode| | |]|] eqn:Hnode;
      try (intros [= <- <- <-]; simpl; rewrite ?Hnode; split; reflexivity).
    destruct (decide (faults w SysWrite name = 0)).
    - destruct (r_err fileReader); intros [= <- <- <-]; simpl;
        rewrite lookup_insert_eq;
        (split; [reflexivity|split; intros _; eexists; reflexivity]).
    - intros [= <- <- <-]; simpl. rewrite lookup_insert_eq.
      split; [reflexivity|split; intros _; eexists; reflexivity]. }
  destruct Hw1 as [Hfaults Hnode].
  unfold os_Remove, guarded, Fatalf, ret. rewrite Hfaults. fold name.
  split; [|split].
  - intros result w'. destruct (decide (faults w SysUnlink name = 0)); [|done].
    destruct (fs w1 !! key name); [|done].
    intros [= <- <-]. simpl. rewrite lookup_delete_eq. done.
  - intros Hok Hsome. rewrite decide_True by done.
    apply Hnode in Hsome as [node ->]. eauto.
  - intros [Hfault|Hnone].
    + rewrite decide_False by done. eauto.
    + destruct (decide (faults w SysUnlink name = 0)); [|eauto].
      destruct (fs w1 !! key name) eqn:Hn1; [|eauto].
      assert (is_Some (fs w !! key name)) as [? Hs] by (apply Hnode; eauto).
      congruence.
Qed.

Lemma since_app (w w' : World) (evs : list Event) :
  trace w' = trace w ++ evs → since w w' = evs.
Proof. intros Htrace. unfold since. rewrite Htrace. apply drop_app_length. Qed.

Ltac eval_since :=
  unfold since; simpl; rewrite <- ?app_assoc; rewrite drop_app_length; simpl.

(** A successful write of a freshly opened, empty file: the file holds
    exactly what the reader delivered, with the mode bits that chmod
    receives for the mode of the header, and it is fsynced exactly when
    asked. *)
Lemma WriteLocalFile_fresh_success (fileReader : Reader) (header : Header)
    (localFile : File) (fsync : bool) (w w' : World) (mode0 : Z) :
  File_offset localFile = 0%nat →
  fs w !! key (File_Name localFile) = Some (RegFile [] mode0) →
  WriteLocalFile fileReader header localFile fsync w = Returned None w' →
  r_err fileReader = None
  ∧ fs w' = <[key (File_Name localFile) :=
               RegFile (r_data fileReader)
                 (syscallMode (os_FileMode (Mode header)))]> (fs w)
  ∧ faults w' = faults w
  ∧ since w w' =
      copy_events (File_Name localFile) 0 (r_data fileReader)
      ++ [EvChmod (File_Name localFile) (syscallMode (os_FileMode (Mode header)))]
      ++ (if fsync then [EvFsync (File_Name localFile)] else []).
Proof.
  intros Hoff Hnode. run_os. set (name := File_Name localFile) in *.
  destruct (r_data fileReader) as [|b data']; [simpl|].
  - destruct (r_err fileReader) as [e0|]; simpl.
    { destruct (decide (faults w SysUnlink name = 0)); [|done].
      rewrite Hnode. done. }
    destruct (decide (faults w SysChmod name = 0)); [|done].
    rewrite Hnode. simpl.
    destruct fsync; simpl.
    + destruct (decide (faults w SysFsync name = 0)); [|done].
      intros [= <-]. simpl.
      repeat split; try reflexivity. apply since_app. simpl.
      now rewrite <- !app_assoc.
    + intros [= <-]. simpl.
      repeat split; try reflexivity. now apply since_app.
  - rewrite Hoff, Hnode, pwrite_empty_file.
    destruct (decide (faults w SysWrite name = 0)); simpl.
    2:{ destruct (decide (faults w SysUnlink name = 0)); [|done].
        rewrite lookup_insert_eq. done. }
    destruct (r_err fileReader) as [e0|]; simpl.
    { destruct (decide (faults w SysUnlink name = 0)); [|done].
      rewrite lookup_insert_eq. done. }
    destruct (decide (faults w SysChmod name = 0)); [|done].
    rewrite lookup_insert_eq. simpl.
    destruct fsync; simpl.
    + destruct (decide (faults w SysFsync name = 0)); [|done].
      intros [= <-]. simpl. rewrite insert_insert_eq.
      repeat split; try reflexivity. apply since_app. simpl.
      now rewrite <- !app_assoc.
    + intros [= <-]. simpl. rewrite insert_insert_eq.
      repeat split; try reflexivity. apply since_app. simpl.
      now rewrite <- !app_assoc.
Qed.

(** C10: in a full-file write (the file freshly opened and empty), when
    the copy is complete and chmod fails, or fsync was asked and fails,
    the error is returned and the file stays at its name with the complete
    content; whatever error is returned, the name is then absent or holds
    the complete content; the file is removed only when the copy failed. *)
Theorem WriteLocalFile_error_keeps_complete_file (fileReader : Reader)
    (header : Header) (localFile : File) (fsync : bool) (w : World) (mode0 : Z) :
  File_offset localFile = 0%nat →
  fs w !! key (File_Name localFile) = Some (RegFile [] mode0) →
  let name := File_Name localFile in
  let call := WriteLocalFile fileReader header localFile fsync w in
  (r_err fileReader = None → faults w SysWrite name = 0 →
   faults w SysChmod name ≠ 0 →
     ∃ w', call = Returned (Some (Wrapped (Errno SysChmod name (faults w SysChmod name))
                                    "Interpret: chmod failed")) w'
           ∧ fs w' !! key name = Some (RegFile (r_data fileReader) mode0)
           ∧ EvUnlink name ∉ since w w') ∧
  (r_err fileReader = None → faults w SysWrite name = 0 →
   faults w SysChmod name = 0 → fsync = true → faults w SysFsync name ≠ 0 →
     ∃ w', call = Returned (Some (Wrapped (Errno SysFsync name (faults w SysFsync name))
                                    "Interpret: fsync failed")) w'
           ∧ fs w' !! key name
             = Some (RegFile (r_data fileReader)
                       (syscallMode (os_FileMode (Mode header))))
           ∧ EvUnlink name ∉ since w w') ∧
  (∀ e w', call = Returned (Some e) w' →
     fs w' !! key name = None
     ∨ (r_err fileReader = None
        ∧ ∃ mode, fs w' !! key name = Some (RegFile (r_data fileReader) mode))) ∧
  (∀ result w', call = Returned result w' → EvUnlink name ∈ since w w' →
     ∃ e0, result = Some (Wrapped e0 "Interpret: copy failed")
           ∧ fs w' !! key name = None).
Proof.
  intros Hoff Hnode name call. unfold call. clear call. run_os. fold name in Hnode |- *.
  destruct (r_data fileReader) as [|b data'];
    [simpl|rewrite Hoff, Hnode, pwrite_empty_file].
  - split; [|split; [|split]].
    + intros Herr Hwrite Hchmod. rewrite Herr. simpl. rewrite decide_False by done.
      eexists. split; [reflexivity|]. simpl.
      split; [exact Hnode|]. eval_since. not_in_trace.
    + intros Herr Hwrite Hchmod -> Hsync. rewrite Herr. simpl.
      rewrite decide_True by done. rewrite Hnode. simpl. rewrite decide_False by done.
      eexists. split; [reflexivity|]. simpl. rewrite lookup_insert_eq.
      split; [reflexivity|]. eval_since. not_in_trace.
    + intros e w'. destruct (r_err fileReader) as [rerr|]; simpl.
      { destruct (decide (faults w SysUnlink name = 0)); [|done].
        rewrite Hnode. intros [= <- <-]. left. simpl. apply lookup_delete_eq. }
      destruct (decide (faults w SysChmod name = 0)).
      * rewrite Hnode. simpl. destruct fsync; simpl; [|done].
        destruct (decide (faults w SysFsync name = 0)); [done|].
        intros [= <- <-]. right. simpl. rewrite lookup_insert_eq. eauto.
      * intros [= <- <-]. right. simpl. eauto.
    + intros result w'. destruct (r_err fileReader) as [rerr|]; simpl.
      { destruct (decide (faults w SysUnlink name = 0)); [|done].
        rewrite Hnode. intros [= <- <-] _. eexists. split; [reflexivity|].
        simpl. apply lookup_delete_eq. }
      destruct (decide (faults w SysChmod name = 0)).
      * rewrite Hnode. simpl. destruct fsync; simpl.
        -- destruct (decide (faults w SysFsync name = 0)); intros [= <- <-];
             eval_since; intros Hin; exfalso; revert Hin; not_in_trace.
        -- intros [= <- <-]. eval_since.
           intros Hin; exfalso; revert Hin; not_in_trace.
      * intros [= <- <-]. eval_since.
        intros Hin; exfalso; revert Hin; not_in_trace.
  - split; [|split; [|split]].
    + intros Herr Hwrite Hchmod. rewrite decide_True by done. simpl.
      rewrite Herr. simpl. rewrite decide_False by done.
      eexists. split; [reflexivity|]. simpl. rewrite lookup_insert_eq.
      split; [reflexivity|]. eval_since. not_in_trace.
    + intros Herr Hwrite Hchmod -> Hsync. rewrite decide_True by done. simpl.
      rewrite Herr. simpl. rewrite decide_True by done.
      rewrite lookup_insert_eq. simpl. rewrite decide_False by done.
      eexists. split; [reflexivity|]. simpl. rewrite lookup_insert_eq.
      split; [reflexivity|]. eval_since. not_in_trace.
    + intros e w'.
      destruct (decide (faults w SysWrite name = 0)); simpl.
      2:{ destruct (decide (faults w SysUnlink name = 0)); [|done].
          rewrite lookup_insert_eq. intros [= <- <-]. left. simpl.
          apply lookup_delete_eq. }
      destruct (r_err fileReader) as [rerr|]; simpl.
      { destruct (decide (faults w SysUnlink name = 0)); [|done].
        rewrite lookup_insert_eq. intros [= <- <-]. left. simpl.
        apply lookup_delete_eq. }
      destruct (decide (faults w SysChmod name = 0)).
      * rewrite lookup_insert_eq. simpl. destruct fsync; simpl; [|done].
        destruct (decide (faults w SysFsync name = 0)); [done|].
        intros [= <- <-]. right. simpl. rewrite lookup_insert_eq. eauto.
      * intros [= <- <-]. right. simpl. rewrite lookup_insert_eq. eauto.
    + intros result w'.
      destruct (decide (faults w SysWrite name = 0)); simpl.
      2:{ destruct (decide (faults w SysUnlink name = 0)); [|done].
          rewrite lookup_insert_eq. intros [= <- <-] _. eexists. split; [reflexivity|].
          simpl. apply lookup_delete_eq. }
      destruct (r_err fileReader) as [rerr|]; simpl.
      { destruct (decide (faults w SysUnlink name = 0)); [|done].
        rewrite lookup_insert_eq. intros [= <- <-] _. eexists. split; [reflexivity|].
        simpl. apply lookup_delete_eq. }
      destruct (decide (faults w SysChmod name = 0)).
      * rewrite lookup_insert_eq. simpl. destruct fsync; simpl.
        -- destruct (decide (faults w SysFsync name = 0)); intros [= <- <-];
             eval_since; intros Hin; exfalso; revert Hin; not_in_trace.
        -- intros [= <- <-]. eval_since.
           intros Hin; exfalso; revert Hin; not_in_trace.
      * intros [= <- <-]. eval_since.
        intros Hin; exfalso; revert Hin; not_in_trace.
Qed.

(** *** Links *)

Lemma node_at_record (e : Event) (w : World) (p : string) :
  node_at (record e w) p = node_at w p.
Proof. reflexivity. Qed.

(** *** Path names and directories *)

Lemma chars_app (a b : string) : chars (a +:+ b) = chars a ++ chars b.
Proof. induction a as [|c a IH]; simpl; [reflexivity|]. now f_equal. Qed.

Lemma str_chars (s : string) : str (chars s) = s.
Proof. apply string_of_list_ascii_of_string. Qed.

Lemma chars_str (l : list ascii) : chars (str l) = l.
Proof. apply list_ascii_of_string_of_list_ascii. Qed.

Lemma chars_empty (s : string) : chars s = [] → s = "".
Proof. destruct s; [reflexivity|discriminate]. Qed.

Lemma strings_TrimSuffix_app (d b : string) : strings_TrimSuffix (d +:+ b) b = d.
Proof.
  unfold strings_TrimSuffix, strings_HasSuffix. rewrite chars_app, length_app.
  replace (length (chars d) + length (chars b) - length (chars b))%nat
    with (length (chars d)) by lia.
  rewrite drop_app_length, bool_decide_eq_true_2 by reflexivity.
  rewrite take_app_length. apply str_chars.
Qed.

Lemma skip_seps_length (l : list ascii) : (length (skip_seps l) ≤ length l)%nat.
Proof. induction l as [|c l IH]; simpl; [lia|]. destruct (is_sep c); simpl; lia. Qed.

Lemma span_elem_length (l : list ascii) : (length (span_elem l).2 ≤ length l)%nat.
Proof. induction l as [|c l IH]; simpl; [lia|]. destruct (is_sep c); simpl; lia. Qed.

Lemma span_elem_plain (e rest : list ascii) :
  forallb (fun c => negb (is_sep c)) e = true →
  span_elem (e ++ "/"%char :: rest) = (e, "/"%char :: rest).
Proof.
  induction e as [|c e IH]; simpl; [reflexivity|].
  intros [Hc He]%andb_true_iff. apply negb_true_iff in Hc. rewrite Hc.
  now rewrite IH.
Qed.

Lemma span_elem_plain_end (e : list ascii) :
  forallb (fun c => negb (is_sep c)) e = true → span_elem e = (e, []).
Proof.
  induction e as [|c e IH]; simpl; [reflexivity|].
  intros [Hc He]%andb_true_iff. apply negb_true_iff in Hc. rewrite Hc.
  now rewrite IH.
Qed.

Lemma skip_seps_plain (e rest : list ascii) :
  e ≠ [] → forallb (fun c => negb (is_sep c)) e = true →
  skip_seps (e ++ rest) = e ++ rest.
Proof.
  destruct e as [|c e]; [done|]. simpl. intros _ [Hc _]%andb_true_iff.
  apply negb_true_iff in Hc. now rewrite Hc.
Qed.

Lemma forallb_rev {A : Type} (f : A → bool) (l : list A) :
  forallb f (rev l) = forallb f l.
Proof.
  induction l as [|a l IH]; simpl; [reflexivity|].
  rewrite forallb_app, IH. simpl. rewrite andb_true_r. apply andb_comm.
Qed.

(** filepath.Base yields the last element of a path. *)
Lemma filepath_Base_last (pre elem : string) :
  plain elem = true → filepath_Base (pre +:+ "/" +:+ elem) = elem.
Proof.
  unfold plain. intros [Hne Hplain]%andb_true_iff.
  apply negb_true_iff, bool_decide_eq_false_1 in Hne.
  assert (Hrev : rev (chars elem) ≠ []).
  { intros Hnil. apply Hne, chars_empty.
    rewrite <- (rev_involutive (chars elem)), Hnil. reflexivity. }
  unfold filepath_Base. rewrite decide_False.
  2:{ intros Hempty. apply (f_equal chars) in Hempty.
      rewrite chars_app in Hempty. simpl in Hempty.
      now apply app_nil in Hempty as [_ [=]]. }
  rewrite !chars_app. simpl. rewrite rev_app_distr. simpl.
  rewrite <- app_assoc. simpl.
  rewrite skip_seps_plain, span_elem_plain by (rewrite ?forallb_rev; done).
  cbn [fst]. destruct (rev (chars elem)) as [|c l] eqn:Hl; [done|].
  change (rev l ++ [c]) with (rev (c :: l)).
  rewrite <- Hl, rev_involutive. apply str_chars.
Qed.

Lemma filepath_Base_plain (elem : string) :
  plain elem = true → filepath_Base elem = elem.
Proof.
  unfold plain. intros [Hne Hplain]%andb_true_iff.
  apply negb_true_iff, bool_decide_eq_false_1 in Hne.
  assert (Hrev : rev (chars elem) ≠ []).
  { intros Hnil. apply Hne, chars_empty.
    rewrite <- (rev_involutive (chars elem)), Hnil. reflexivity. }
  unfold filepath_Base. rewrite decide_False by done.
  rewrite <- (app_nil_r (rev (chars elem))).
  rewrite skip_seps_plain by (rewrite ?forallb_rev; done).
  rewrite app_nil_r, span_elem_plain_end by (rewrite ?forallb_rev; done).
  cbn [fst]. destruct (rev (chars elem)) as [|c l] eqn:Hl; [done|].
  change (rev l ++ [c]) with (rev (c :: l)).
  rewrite <- Hl, rev_involutive. apply str_chars.
Qed.

Lemma key_nonempty (p : string) : p ≠ "" → key p ≠ "".
Proof.
  intros Hp. unfold key.
  destruct (skip_seps (rev (chars p))) as [|c l] eqn:Hs.
  - rewrite decide_False by done. discriminate.
  - intros Hk. apply (f_equal chars) in Hk. rewrite chars_str in Hk.
    apply (f_equal (@length ascii)) in Hk.
    rewrite length_rev in Hk. simpl in Hk. lia.
Qed.

Lemma parent_of_shorter (p d : string) :
  parent_of p = Some d → d ≠ "" ∧ (length (chars d) < length (chars p))%nat.
Proof.
  unfold parent_of.
  pose proof (span_elem_length (skip_seps (rev (chars p)))) as Hspan.
  pose proof (skip_seps_length (rev (chars p))) as Hskip.
  rewrite length_rev in Hskip.
  destruct (span_elem (skip_seps (rev (chars p)))).2 as [|c r]; simpl in *.
  - first [discriminate | case_decide; [lia|discriminate]].
  - intros Hd. case_decide as Hlen; [|discriminate]. revert Hd.
    intros [= <-]. rewrite chars_str, length_rev. split; [|lia].
    intros Hempty. apply (f_equal chars) in Hempty. rewrite chars_str in Hempty.
    apply (f_equal (@length ascii)) in Hempty. rewrite length_rev in Hempty.
    simpl in Hempty. lia.
Qed.

Lemma node_at_None (w : World) (p : string) :
  node_at w p = None → key p ≠ "/" ∧ fs w !! key p = None.
Proof. unfold node_at. case_decide; [discriminate|done]. Qed.

Lemma is_dir_insert (w w' : World) (p : string) (perm : Z) :
  fs w' = <[key p := Dir perm]> (fs w) → is_dir w' p = true.
Proof.
  intros Hfs. unfold is_dir, node_at. case_decide; [reflexivity|].
  now rewrite Hfs, lookup_insert_eq.
Qed.

Lemma os_Mkdir_cases (path : string) (perm : Z) (w : World) :
  (∃ e, os_Mkdir path perm w = Returned (Some e) (record (EvMkdir path perm) w))
  ∨ (os_Mkdir path perm w
       = Returned None (with_fs (<[key path := Dir perm]> (fs w))
                          (record (EvMkdir path perm) w))
     ∧ node_at w path = None).
Proof.
  unfold os_Mkdir, guarded. case_decide; [|eauto].
  destruct (node_at w path) eqn:Hnode; [eauto|].
  destruct (parent_ok w path && negb (bool_decide (key path = ""))); eauto.
Qed.

Lemma MkdirAll_rec_frame (fuel : nat) (perm : Z) (path : string) (w : World) :
  ∃ result w', MkdirAll_rec fuel path perm w = Returned result w'
    ∧ faults w' = faults w
    ∧ grown_by_dirs perm (fs w) (fs w')
    ∧ (result = None → is_dir w' path = true).
Proof.
  revert path w. induction fuel as [|fuel IH]; intros path w.
  - simpl. unfold is_dir. destruct (node_at w path) as [[]|] eqn:Hnode;
      do 2 eexists; (split; [reflexivity|]);
      (split; [reflexivity|]); (split; [intros k; now left|]);
      rewrite ?Hnode; done.
  - simpl. unfold is_dir at 2. destruct (node_at w path) as [[]|] eqn:Hnode;
      try (do 2 eexists; (split; [reflexivity|]);
           (split; [reflexivity|]); (split; [intros k; now left|]);
           rewrite ?Hnode; done).
    unfold bind.
    assert (Hparent : ∃ err w1,
      (match parent_of path with
       | Some d => MkdirAll_rec fuel d perm
       | None => ret None
       end) w = Returned err w1
      ∧ faults w1 = faults w ∧ grown_by_dirs perm (fs w) (fs w1)).
    { destruct (parent_of path) as [d|].
      - destruct (IH d w) as (err & w1 & -> & ? & ? & _). eauto.
      - unfold ret. do 2 eexists. split; [reflexivity|].
        split; [reflexivity|]. intros k; now left. }
    destruct Hparent as (err & w1 & -> & Hfaults & Hgrown).
    destruct err as [e|].
    { unfold ret. do 2 eexists. split; [reflexivity|]. done. }
    destruct (os_Mkdir_cases path perm w1) as [[e ->]|[-> Hfree]].
    + destruct (is_dir (record (EvMkdir path perm) w1) path) eqn:Hdir;
        do 2 eexists; (split; [reflexivity|]); done.
    + unfold ret. do 2 eexists. split; [reflexivity|].
      split; [done|]. split.
      * intros k. simpl. apply node_at_None in Hfree as [_ Hfree].
        destruct (decide (k = key path)) as [->|Hk].
        -- rewrite lookup_insert_eq. right. split; [|reflexivity].
           destruct (Hgrown (key path)) as [Heq|[Hnone Hsome]]; congruence.
        -- rewrite lookup_insert_ne by done. apply Hgrown.
      * intros _. now apply (is_dir_insert w1 _ path perm).
Qed.

(** os.MkdirAll on a directory that is there does nothing. *)
Lemma os_MkdirAll_existing (path : string) (perm : Z) (w : World) :
  is_dir w path = true → os_MkdirAll path perm w = Returned None w.
Proof.
  unfold os_MkdirAll, is_dir. simpl.
  destruct (node_at w path) as [[]|]; done.
Qed.

(** os.MkdirAll builds the whole chain of missing directories when no
    system call fails and no file or link is in the way. *)
Lemma MkdirAll_rec_total (fuel : nat) (perm : Z) (path : string) (w : World) :
  (length (chars path) < fuel)%nat → path ≠ "" →
  (∀ q, faults w SysMkdir q = 0) →
  forallb (fun q => match node_at w q with
                    | Some (Dir _) | None => true
                    | Some _ => false
                    end) (path_chain fuel path) = true →
  ∃ w', MkdirAll_rec fuel path perm w = Returned None w'.
Proof.
  revert path w. induction fuel as [|fuel IH]; intros path w Hlen Hne Hfaults Hway;
    [lia|].
  simpl in *. apply andb_true_iff in Hway as [Hhere Hway].
  destruct (node_at w path) as [[]|] eqn:Hnode; try done; [eauto|].
  unfold bind.
  assert (Hparent : ∃ w1,
    (match parent_of path with
     | Some d => MkdirAll_rec fuel d perm
     | None => ret None
     end) w = Returned None w1
    ∧ faults w1 = faults w ∧ grown_by_dirs perm (fs w) (fs w1)
    ∧ parent_ok w1 path = true).
  { unfold parent_ok. destruct (parent_of path) as [d|] eqn:Hd.
    - apply parent_of_shorter in Hd as [Hdne Hdlen].
      destruct (IH d w) as [w1 Hrun]; [lia|done|done|done|].
      destruct (MkdirAll_rec_frame fuel perm d w) as (res & w1' & Hrun' & ? & ? & Hdir).
      rewrite Hrun in Hrun'. injection Hrun' as <- <-.
      exists w1. rewrite Hrun. auto.
    - exists w. unfold ret. split; [reflexivity|]. split; [reflexivity|].
      split; [intros k; now left|reflexivity]. }
  destruct Hparent as (w1 & -> & Hfaults1 & Hgrown & Hpok).
  unfold os_Mkdir, guarded. rewrite Hfaults1, decide_True by apply Hfaults.
  apply node_at_None in Hnode as [Hroot Hfree].
  unfold node_at at 1. rewrite decide_False by done.
  destruct (Hgrown (key path)) as [Heq|[_ Hsome]].
  - rewrite Heq, Hfree, Hpok.
    rewrite bool_decide_eq_false_2 by now apply key_nonempty. simpl.
    unfold ret. eauto.
  - rewrite Hsome. unfold is_dir, node_at. simpl.
    rewrite decide_False by done. rewrite Hsome. eauto.
Qed.

(** C9: PrepareDirs with equal names does nothing and returns no error.
    Otherwise, when the target path ends in the last element of the entry
    name, it is os.MkdirAll with mode 0755 of the target path without that
    element: nothing happens when that directory is there; when it returns
    no error the directory is there, and all that changed in the file
    system are new directories of mode 0755; it does return no error when
    no mkdir fails and only directories stand on the way.  The element
    stripped is the part of the entry name after its last separator. *)
Theorem PrepareDirs_contract (fileName targetPath : string) (w : World) :
  (fileName = targetPath → PrepareDirs fileName targetPath w = Returned None w) ∧
  (∀ dir, fileName ≠ targetPath → targetPath = dir +:+ filepath_Base fileName →
     PrepareDirs fileName targetPath w = os_MkdirAll dir perm_0755 w
     ∧ (is_dir w dir = true → PrepareDirs fileName targetPath w = Returned None w)
     ∧ (∀ w', PrepareDirs fileName targetPath w = Returned None w' →
          is_dir w' dir = true ∧ grown_by_dirs perm_0755 (fs w) (fs w'))
     ∧ (dir ≠ "" → clear_way w dir = true → (∀ q, faults w SysMkdir q = 0) →
          ∃ w', PrepareDirs fileName targetPath w = Returned None w')) ∧
  (fileName ≠ targetPath →
   strings_HasSuffix targetPath (filepath_Base fileName) = false →
     PrepareDirs fileName targetPath w = os_MkdirAll targetPath perm_0755 w) ∧
  (∀ pre elem, plain elem = true →
     (fileName = pre +:+ "/" +:+ elem ∨ fileName = elem) →
     filepath_Base fileName = elem).
Proof.
  split; [|split; [|split]].
  - intros ->. unfold PrepareDirs. now rewrite decide_True.
  - intros dir Hne ->.
    assert (Hrun : PrepareDirs fileName (dir +:+ filepath_Base fileName) w
                   = os_MkdirAll dir perm_0755 w).
    { unfold PrepareDirs. rewrite decide_False by done.
      now rewrite strings_TrimSuffix_app. }
    rewrite Hrun. split; [reflexivity|]. split; [apply os_MkdirAll_existing|]. split.
    + intros w' Hok. unfold os_MkdirAll in Hok.
      destruct (MkdirAll_rec_frame (S (length (chars dir))) perm_0755 dir w)
        as (res & w1 & Hrun' & _ & Hgrown & Hdir).
      rewrite Hok in Hrun'. injection Hrun' as <- <-. auto.
    + intros Hdir Hway Hfaults. apply MkdirAll_rec_total; try done. lia.
  - intros Hne Hsuffix. unfold PrepareDirs, strings_TrimSuffix.
    rewrite decide_False by done. now rewrite Hsuffix.
  - intros pre elem Hplain [->| ->].
    + now apply filepath_Base_last.
    + now apply filepath_Base_plain.
Qed.

(** *** Increments *)

Lemma well_framed_framed (inc : Increment) :
  well_framed inc = true → framed (inc_blocks inc).
Proof.
  unfold well_framed, framed. rewrite forallb_forall, Forall_forall.
  intros Hall b Hb. apply list_elem_of_In in Hb.
  now apply Hall, bool_decide_eq_true_1 in Hb.
Qed.

Lemma apply_blocks_cons (content : list byte) (b : nat * list byte)
    (rest : list (nat * list byte)) :
  apply_blocks blockSize content (b :: rest)
  = apply_blocks blockSize (pwrite content (b.1 * blockSize) b.2) rest.
Proof. reflexivity. Qed.

Lemma untouched_cons (b : nat * list byte) (rest : list (nat * list byte)) (i : nat) :
  untouched blockSize (b :: rest) i →
  ¬ (b.1 * blockSize ≤ i < (b.1 + 1) * blockSize)%nat
  ∧ untouched blockSize rest i.
Proof.
  intros Hout. split.
  - destruct b as [n page]. apply (Hout n page). left.
  - intros n page Hin. apply (Hout n page). now right.
Qed.

Lemma length_apply_blocks (blocks : list (nat * list byte)) (content : list byte) :
  (length content ≤ length (apply_blocks blockSize content blocks))%nat.
Proof.
  revert content. induction blocks as [|b rest IH]; intros content; [reflexivity|].
  rewrite apply_blocks_cons. etrans; [|apply IH]. apply length_pwrite_ge.
Qed.

(** A byte that lies in no block of the stream keeps its old value, and
    reads as zero where the file had no byte before. *)
Lemma lookup_apply_blocks_untouched (blocks : list (nat * list byte))
    (content : list byte) (i : nat) :
  framed blocks → untouched blockSize blocks i →
  (i < length (apply_blocks blockSize content blocks))%nat →
  apply_blocks blockSize content blocks !! i
  = if decide (i < length content)%nat then content !! i else Some Byte.x00.
Proof.
  revert content. induction blocks as [|[n page] rest IH]; intros content Hfr Hout Hi.
  - simpl in *. now rewrite decide_True.
  - apply untouched_cons in Hout as [Hhere Hrest]. simpl in Hhere.
    apply Forall_cons in Hfr as [Hlen Hfr]. simpl in Hlen.
    rewrite apply_blocks_cons in *. simpl in *.
    rewrite IH by done.
    pose proof (length_pwrite_ge content (n * blockSize) page) as Hge.
    assert (Hrange : ¬ (n * blockSize ≤ i < n * blockSize + length page)%nat) by lia.
    destruct (decide (i < length content)%nat).
    + rewrite decide_True by lia. now apply lookup_pwrite_old.
    + case_decide; [|reflexivity]. apply lookup_pwrite_gap; [done|lia].
Qed.

Lemma last_block_None (bn : nat) (blocks : list (nat * list byte)) :
  last_block bn blocks = None → ∀ page, (bn, page) ∉ blocks.
Proof.
  induction blocks as [|[n p] rest IH]; intros Hlast page; [apply not_elem_of_nil|].
  simpl in Hlast. destruct (last_block bn rest); [discriminate|].
  case_decide; [discriminate|].
  apply not_elem_of_cons. split; [congruence|]. now apply IH.
Qed.

(** A block range that the stream does not name and that lies inside the
    file is kept. *)
Lemma slice_apply_blocks_apart (blocks : list (nat * list byte))
    (content : list byte) (bn : nat) :
  framed blocks → (∀ page, (bn, page) ∉ blocks) →
  (bn * blockSize + blockSize ≤ length content)%nat →
  slice (apply_blocks blockSize content blocks) (bn * blockSize) blockSize
  = slice content (bn * blockSize) blockSize.
Proof.
  revert content. induction blocks as [|[n page] rest IH]; intros content Hfr Hno Hin;
    [reflexivity|].
  apply Forall_cons in Hfr as [Hlen Hfr]. simpl in Hlen.
  rewrite apply_blocks_cons. simpl.
  pose proof (length_pwrite_ge content (n * blockSize) page) as Hge.
  rewrite IH; [|done| |lia].
  - apply slice_pwrite_apart; [|done].
    assert (n ≠ bn) by (intros ->; apply (Hno page); left).
    rewrite Hlen. nia.
  - intros p Hp. apply (Hno p). now right.
Qed.

(** The range of a block of the stream holds the bytes of the last block
    of that number. *)
Lemma slice_apply_blocks_last (blocks : list (nat * list byte))
    (content : list byte) (bn : nat) (page : list byte) :
  framed blocks → last_block bn blocks = Some page →
  slice (apply_blocks blockSize content blocks) (bn * blockSize) blockSize = page.
Proof.
  revert content. induction blocks as [|[n p] rest IH]; intros content Hfr Hlast;
    [discriminate|].
  apply Forall_cons in Hfr as [Hlen Hfr]. simpl in Hlen.
  rewrite apply_blocks_cons. simpl in *.
  destruct (last_block bn rest) as [q|] eqn:Hrest.
  - injection Hlast as <-. now apply IH.
  - case_decide as Hn; [|discriminate]. injection Hlast as <-. subst n.
    rewrite slice_apply_blocks_apart; [|done|now apply last_block_None|].
    + pose proof (slice_pwrite content (bn * blockSize) p) as Hs.
      now rewrite Hlen in Hs.
    + destruct p as [|b p]; [simpl in *; subst; simpl; lia|].
      rewrite length_pwrite by done. lia.
Qed.

Lemma last_block_NoDup (blocks : list (nat * list byte)) (bn : nat) (page : list byte) :
  NoDup blocks.*1 → (bn, page) ∈ blocks → last_block bn blocks = Some page.
Proof.
  induction blocks as [|[n p] rest IH]; intros Hnd Hin; [now apply elem_of_nil in Hin|].
  simpl in *. apply NoDup_cons in Hnd as [Hfresh Hnd].
  apply elem_of_cons in Hin as [[= -> ->]|Hin].
  - destruct (last_block n rest) as [q|] eqn:Hq; [|now rewrite decide_True].
    exfalso. apply Hfresh. clear -Hq.
    induction rest as [|[m r] rest IH]; [discriminate|]. simpl in *.
    destruct (last_block n rest); [right; now apply IH|].
    case_decide; [subst; left|discriminate].
  - now rewrite (IH Hnd Hin).
Qed.

Lemma os_OpenFile_success (name : string) (flag perm : Z) (w w' : World) (f : File) :
  os_OpenFile name flag perm w = Returned (Success f) w' →
  f = {| File_Name := name; File_offset := 0 |}
  ∧ faults w' = faults w
  ∧ trace w' = trace w ++ [EvOpen name flag perm]
  ∧ ((∃ data mode, fs w !! key name = Some (RegFile data mode)
        ∧ fs w' = if Z.testbit flag 9
                  then <[key name := RegFile [] mode]> (fs w) else fs w)
     ∨ (fs w !! key name = None ∧ Z.testbit flag 6 = true
        ∧ fs w' = <[key name := RegFile [] perm]> (fs w))).
Proof.
  unfold os_OpenFile, guarded. case_decide; [|discriminate].
  unfold node_at. case_decide; [discriminate|].
  destruct (fs w !! key name) as [[data mode| | |]|] eqn:Hnode; try discriminate.
  - destruct (Z.testbit flag 9); intros [= <- <-]; simpl;
      repeat split; left; eauto.
  - destruct (Z.testbit flag 6) eqn:Hcreate; simpl; [|discriminate].
    destruct (_ && _); [|discriminate].
    intros [= <- <-]. simpl. repeat split. right. auto.
Qed.

Lemma write_blocks_success (file : File) (blocks : list (nat * list byte))
    (w w' : World) (content : list byte) (mode : Z) :
  fs w !! key (File_Name file) = Some (RegFile content mode) →
  write_blocks file blocks w = Returned None w' →
  fs w' !! key (File_Name file)
  = Some (RegFile (apply_blocks blockSize content blocks) mode)
  ∧ faults w' = faults w.
Proof.
  revert w content. induction blocks as [|[n page] rest IH]; intros w content Hnode.
  - simpl. unfold ret. intros [= <-]. done.
  - simpl. unfold bind, write_at. rewrite Hnode.
    destruct (decide (faults w SysWrite (File_Name file) = 0)); [|discriminate].
    intros Hrest. eapply IH in Hrest as [Hfs Hfaults].
    + rewrite Hfs. split; [reflexivity|]. now rewrite Hfaults.
    + simpl. apply lookup_insert_eq.
Qed.

(** What a successful ApplyFileIncrement leaves: the blocks of the stream
    written over the base content, which is all zeros of the final size
    when the file is created anew, and the content found otherwise. *)
Lemma ApplyFileIncrement_success (fileName : string) (increment : Reader)
    (createNew fsync : bool) (w w' : World) :
  ApplyFileIncrement fileName increment createNew fsync w = Returned None w' →
  ∃ inc base mode,
    r_err increment = None
    ∧ ReadIncrement (r_data increment) = Some inc
    ∧ framed (inc_blocks inc)
    ∧ (if createNew then base = zeros (inc_size inc)
       else fs w !! key fileName = Some (RegFile base mode))
    ∧ fs w' !! key fileName
      = Some (RegFile (apply_blocks blockSize base (inc_blocks inc)) mode).
Proof.
  unfold ApplyFileIncrement.
  destruct (r_err increment) as [e|]; [discriminate|].
  destruct (ReadIncrement (r_data increment)) as [inc|]; [|discriminate].
  destruct (well_framed inc) eqn:Hframed; [|discriminate]. simpl.
  apply well_framed_framed in Hframed. intros Hrun.
  apply bind_Returned in Hrun as (opened & w1 & Hopen & Hrun).
  destruct opened as [file|e]; [|discriminate].
  apply os_OpenFile_success in Hopen as (-> & Hfaults & _ & Hopen).
  set (file := {| File_Name := fileName; File_offset := 0 |}) in *.
  apply bind_Returned in Hrun as (err & w4 & Hbody & Hclose).
  assert (err = None ∧ fs w' = fs w4) as [-> Hfs4].
  { revert Hclose. unfold LoggedClose. run. intros [= -> <-]. done. }
  apply bind_Returned in Hbody as (terr & w2 & Htrunc & Hbody).
  destruct terr as [e|]; [discriminate|].
  apply bind_Returned in Hbody as (werr & w3 & Hwrite & Hsync).
  destruct werr as [e|]; [discriminate|].
  assert (Hfs3 : fs w4 = fs w3).
  { revert Hsync. unfold File_Sync, guarded. run.
    destruct fsync; [case_decide|]; intros [= <-]; done. }
  rewrite Hfs4, Hfs3. clear Hclose Hsync Hfs4 Hfs3.
  destruct createNew.
  - assert (Hnode : ∃ mode, fs w1 !! key fileName = Some (RegFile [] mode)).
    { destruct Hopen as [(data & mode & _ & ->)|(_ & _ & ->)];
        eexists; apply lookup_insert_eq. }
    destruct Hnode as [mode Hnode].
    revert Htrunc. unfold File_Truncate, guarded. simpl. rewrite Hnode.
    case_decide; [|discriminate]. intros [= <-].
    eapply (write_blocks_success file) in Hwrite as [Hfs _];
      [|simpl; apply lookup_insert_eq].
    exists inc, (zeros (inc_size inc)), mode.
    repeat (split; [done|]).
    assert (Hzero : ftruncate [] (inc_size inc) = zeros (inc_size inc)).
    { unfold ftruncate. rewrite take_nil. simpl. now rewrite Nat.sub_0_r. }
    now rewrite Hzero in Hfs.
  - destruct Hopen as [(data & mode & Hnode & Hfs1)|(_ & [=] & _)].
    change (Z.testbit O_RDWR 9) with false in Hfs1. simpl in Hfs1.
    revert Htrunc. unfold ret. intros [= <-].
    eapply (write_blocks_success file) in Hwrite as [Hfs _];
      [|simpl; rewrite Hfs1; exact Hnode].
    exists inc, data, mode. done.
Qed.

(** *** Regular files *)

Lemma accepted_not_skipped (t : FileTarInterpreter) (name : string) :
  accepted t name →
  match FilesToUnwrap t with
  | Some filesToUnwrap => negb (bool_decide (is_Some (filesToUnwrap !! name)))
  | None => false
  end = false.
Proof.
  intros [->|(sel & -> & Hin)]; [reflexivity|].
  now rewrite bool_decide_eq_true_2.
Qed.

Lemma accepted_or_excluded (t : FileTarInterpreter) (name : string) :
  (accepted t name ∨ excluded t name) ∧ ¬ (accepted t name ∧ excluded t name).
Proof.
  unfold accepted, excluded. destruct (FilesToUnwrap t) as [sel|] eqn:Hsel.
  - destruct (sel !! name) as [v|] eqn:Hv.
    + split; [left; right; eauto|].
      intros [_ (sel' & [= <-] & Hnone)]. congruence.
    + split; [right; eauto|].
      intros [[[=]|(sel' & [= <-] & [v Hsome])] _]. congruence.
  - split; [left; now left|]. intros [_ (sel' & [=] & _)].
Qed.

(** The test of the source for the increment path is false. *)
Lemma not_an_increment (t : FileTarInterpreter) (name : string) :
  let found := Files (FilesMetadata t) !! name in
  (found = None ∨ (∃ d, found = Some d ∧ IsIncremented d = false)
   ∨ IsIncremental (Sentinel t) = false) →
  bool_decide (is_Some found) && IsIncremental (Sentinel t)
  && IsIncremented (default zeroFileDescription found) = false.
Proof.
  intros found [Hnone|[(d & Hsome & Hinc)|Hfull]].
  - unfold found in *. now rewrite Hnone.
  - unfold found in *. rewrite Hsome. simpl. rewrite Hinc. apply andb_false_r.
  - rewrite Hfull, andb_false_r. reflexivity.
Qed.

(** The full-file path, when it returns no error, leaves at the target a
    regular file with exactly the bytes of the reader and the mode bits
    that chmod receives for the mode of the entry. *)
Lemma fullFilePath_success (r : Reader) (h : Header) (target : string)
    (fsync : bool) (w w' : World) :
  fullFilePath r h target fsync w = Returned None w' →
  r_err r = None
  ∧ fs w' !! key target = Some (RegFile (r_data r) (syscallMode (os_FileMode (Mode h)))).
Proof.
  unfold fullFilePath. intros Hrun.
  apply bind_Returned in Hrun as (err & w1 & _ & Hrun).
  destruct err as [e|]; [discriminate|].
  apply bind_Returned in Hrun as (opened & w2 & Hopen & Hrun).
  destruct opened as [file|e]; [|discriminate].
  apply os_OpenFile_success in Hopen as (-> & _ & _ & Hopen).
  apply bind_Returned in Hrun as (result & w3 & Hwrite & Hclose).
  assert (result = None ∧ fs w' = fs w3) as [-> Hfs].
  { revert Hclose. unfold LoggedClose. run. intros [= -> <-]. done. }
  assert (Hfresh : ∃ mode, fs w2 !! key target = Some (RegFile [] mode)).
  { destruct Hopen as [(data & mode & _ & ->)|(_ & _ & ->)];
      eexists; apply lookup_insert_eq. }
  destruct Hfresh as [mode Hfresh].
  eapply WriteLocalFile_fresh_success in Hwrite as (Herr & Hfs3 & _); [|done|done].
  split; [done|]. rewrite Hfs, Hfs3. simpl. apply lookup_insert_eq.
Qed.

(** For an accepted entry the call is one of the two paths, by the test
    of the source. *)
Lemma unwrapRegularFileOld_accepted (t : FileTarInterpreter) (r : Reader)
    (h : Header) (target : string) (fsync : bool) (w : World) :
  accepted t (Name h) →
  let found := Files (FilesMetadata t) !! Name h in
  unwrapRegularFileOld t r h target fsync w
  = if bool_decide (is_Some found) && IsIncremental (Sentinel t)
       && IsIncremented (default zeroFileDescription found)
    then incrementPath t r target fsync w
    else fullFilePath r h target fsync w.
Proof.
  intros Hacc found. unfold unwrapRegularFileOld.
  rewrite (accepted_not_skipped _ _ Hacc). fold found.
  now destruct (_ && _).
Qed.

Lemma incrementPath_success (t : FileTarInterpreter) (r : Reader)
    (target : string) (fsync : bool) (w w' : World) :
  incrementPath t r target fsync w = Returned None w' →
  ApplyFileIncrement target r (createNewIncrementalFiles t) fsync w = Returned None w'.
Proof.
  unfold incrementPath. intros Hrun.
  apply bind_Returned in Hrun as ([e|] & w1 & Happly & Hret); [discriminate|].
  now injection Hret as <-.
Qed.

(** C7: for an accepted entry, the reader is taken as an increment stream
    when the metadata index marks the name incremented and the backup is
    incremental, and as the full content of the file in every other case
    (no metadata entry, not incremented, backup not incremental): then the
    file is written through the full-file path and on success holds the
    bytes of the reader. *)
Theorem unwrapRegularFileOld_decision (t : FileTarInterpreter) (r : Reader)
    (h : Header) (target : string) (fsync : bool) (w : World) :
  accepted t (Name h) →
  let found := Files (FilesMetadata t) !! Name h in
  let call := unwrapRegularFileOld t r h target fsync w in
  ((∃ d, found = Some d ∧ IsIncremented d = true)
   ∧ IsIncremental (Sentinel t) = true →
     call = incrementPath t r target fsync w
     ∧ ∀ w', call = Returned None w' →
         ∃ inc base mode,
           ReadIncrement (r_data r) = Some inc
           ∧ fs w' !! key target
             = Some (RegFile (apply_blocks blockSize base (inc_blocks inc)) mode)) ∧
  (found = None ∨ (∃ d, found = Some d ∧ IsIncremented d = false)
   ∨ IsIncremental (Sentinel t) = false →
     call = fullFilePath r h target fsync w
     ∧ ∀ w', call = Returned None w' →
         fs w' !! key target
         = Some (RegFile (r_data r) (syscallMode (os_FileMode (Mode h))))).
Proof.
  intros Hacc found call. unfold call.
  rewrite (unwrapRegularFileOld_accepted _ _ _ _ _ _ Hacc). fold found. split.
  - intros [(d & Hfound & Hinc) Hsentinel]. rewrite Hfound, Hsentinel. simpl.
    rewrite Hinc. simpl. split; [reflexivity|].
    intros w' Hrun. apply incrementPath_success in Hrun.
    apply ApplyFileIncrement_success in Hrun
      as (inc & base & mode & _ & Hread & _ & _ & Hfs). eauto.
  - intros Hfull.
    assert (Hcond : bool_decide (is_Some found) && IsIncremental (Sentinel t)
                    && IsIncremented (default zeroFileDescription found) = false).
    { destruct Hfull as [->|[(d & -> & Hinc)| ->]].
      - reflexivity.
      - simpl. rewrite Hinc. apply andb_false_r.
      - rewrite andb_false_r. reflexivity. }
    rewrite Hcond. split; [reflexivity|].
    intros w' Hrun. now apply fullFilePath_success in Hrun as [_ ?].
Qed.

(** C1: for an accepted entry that the metadata index marks incremented,
    under an incremental backup, a call that returns no error leaves a
    regular file at the target in which, for every block number of the
    stream, the bytes of that block's range are the bytes the stream gives
    for it (the last ones, should the stream name a block twice); every
    byte outside all block ranges is zero when the file is created anew,
    and otherwise is the byte the file had before the call. *)
Theorem unwrapRegularFileOld_applies_increment (t : FileTarInterpreter)
    (r : Reader) (h : Header) (target : string) (fsync : bool) (w w' : World)
    (d : BackupFileDescription) (inc : Increment) :
  accepted t (Name h) →
  Files (FilesMetadata t) !! Name h = Some d → IsIncremented d = true →
  IsIncremental (Sentinel t) = true →
  ReadIncrement (r_data r) = Some inc →
  unwrapRegularFileOld t r h target fsync w = Returned None w' →
  ∃ content mode,
    fs w' !! key target = Some (RegFile content mode)
    ∧ (∀ bn page, last_block bn (inc_blocks inc) = Some page →
         slice content (bn * blockSize) blockSize = page)
    ∧ (NoDup (inc_blocks inc).*1 → ∀ bn page, (bn, page) ∈ inc_blocks inc →
         slice content (bn * blockSize) blockSize = page)
    ∧ (createNewIncrementalFiles t = true →
         ∀ i, untouched blockSize (inc_blocks inc) i → (i < length content)%nat →
           content !! i = Some Byte.x00)
    ∧ (createNewIncrementalFiles t = false →
         ∃ old mode0, fs w !! key target = Some (RegFile old mode0)
           ∧ (length old ≤ length content)%nat
           ∧ ∀ i, untouched blockSize (inc_blocks inc) i → (i < length old)%nat →
               content !! i = old !! i).
Proof.
  intros Hacc Hfound Hinc Hsentinel Hread Hrun.
  rewrite (unwrapRegularFileOld_accepted _ _ _ _ _ _ Hacc) in Hrun.
  rewrite Hfound, Hsentinel in Hrun. simpl in Hrun. rewrite Hinc in Hrun.
  simpl in Hrun.
  apply incrementPath_success, ApplyFileIncrement_success in Hrun
    as (inc' & base & mode & _ & Hread' & Hframed & Hbase & Hfs).
  rewrite Hread in Hread'. injection Hread' as <-.
  exists (apply_blocks blockSize base (inc_blocks inc)), mode.
  split; [exact Hfs|]. split; [|split; [|split]].
  - intros bn page Hlast. now apply slice_apply_blocks_last.
  - intros Hnd bn page Hin. apply slice_apply_blocks_last; [done|].
    now apply last_block_NoDup.
  - intros Hnew i Hout Hi. rewrite Hnew in Hbase. subst base.
    rewrite lookup_apply_blocks_untouched by done.
    case_decide as Hlt; [|reflexivity]. unfold zeros in *.
    rewrite length_replicate in Hlt. now apply lookup_replicate_2.
  - intros Hold. rewrite Hold in Hbase. exists base, mode.
    split; [exact Hbase|]. split; [apply length_apply_blocks|].
    intros i Hout Hi. rewrite lookup_apply_blocks_untouched; [|done|done|].
    + now rewrite decide_True.
    + pose proof (length_apply_blocks (inc_blocks inc) base). lia.
Qed.

(** *** No fsync at write time *)

Lemma only_refl (P : Event → Prop) (w : World) : only P w w.
Proof. exists []. split; [now rewrite app_nil_r|constructor]. Qed.

Lemma only_trans (P : Event → Prop) (w1 w2 w3 : World) :
  only P w1 w2 → only P w2 w3 → only P w1 w3.
Proof.
  intros (evs1 & H1 & HP1) (evs2 & H2 & HP2). exists (evs1 ++ evs2).
  split; [now rewrite H2, H1, app_assoc|now apply Forall_app].
Qed.

Lemma only_record (P : Event → Prop) (e : Event) (w : World) :
  P e → only P w (record e w).
Proof. intros He. exists [e]. split; [reflexivity|]. now repeat constructor. Qed.

Lemma only_with_fs (P : Event → Prop) (f : gmap string Node) (w w' : World) :
  only P w w' → only P w (with_fs f w').
Proof. intros (evs & H & HP). now exists evs. Qed.

Lemma quiet_ret {A : Type} (P : Event → Prop) (a : A) : quiet P (ret a).
Proof. intros w. apply only_refl. Qed.

Lemma quiet_bind {A B : Type} (P : Event → Prop) (m : Go A) (k : A → Go B) :
  quiet P m → (∀ a, quiet P (k a)) → quiet P (bind m k).
Proof.
  intros Hm Hk w. unfold bind. specialize (Hm w).
  destruct (m w) as [a w1|w1]; [|exact Hm].
  specialize (Hk a w1). destruct (k a w1); eapply only_trans; eauto.
Qed.

Ltac quiet_call :=
  let w := fresh "w" in
  intros w; unfold guarded; simpl;
  repeat match goal with
         | |- context [match ?x with _ => _ end] =>
             lazymatch x with
             | context [match _ with _ => _ end] => fail
             | _ => destruct x
             end
         end;
  repeat apply only_with_fs; apply only_record; intros ? [=].

Lemma quiet_os_OpenFile (name : string) (flag perm : Z) :
  quiet not_fsync (os_OpenFile name flag perm).
Proof. unfold os_OpenFile. quiet_call. Qed.

Lemma quiet_write_at (name : string) (off : nat) (data : list byte) :
  quiet not_fsync (write_at name off data).
Proof. unfold write_at. quiet_call. Qed.

Lemma quiet_os_Remove (name : string) : quiet not_fsync (os_Remove name).
Proof. unfold os_Remove. quiet_call. Qed.

Lemma quiet_File_Chmod (f : File) (mode : Z) : quiet not_fsync (File_Chmod f mode).
Proof. unfold File_Chmod. quiet_call. Qed.

Lemma quiet_os_Chmod (name : string) (mode : Z) : quiet not_fsync (os_Chmod name mode).
Proof. unfold os_Chmod. quiet_call. Qed.

Lemma quiet_File_Truncate (f : File) (size : nat) :
  quiet not_fsync (File_Truncate f size).
Proof. unfold File_Truncate. quiet_call. Qed.

Lemma quiet_os_Mkdir (name : string) (perm : Z) : quiet not_fsync (os_Mkdir name perm).
Proof. unfold os_Mkdir. quiet_call. Qed.

Lemma quiet_os_Link (oldname newname : string) :
  quiet not_fsync (os_Link oldname newname).
Proof. unfold os_Link. quiet_call. Qed.

Lemma quiet_os_Symlink (oldname newname : string) :
  quiet not_fsync (os_Symlink oldname newname).
Proof. unfold os_Symlink. quiet_call. Qed.

Lemma quiet_emit (e : Event) : not_fsync e → quiet not_fsync (emit e).
Proof. intros He w. now apply only_record. Qed.

Lemma quiet_Fatalf {A : Type} (format : string) (args : list Arg) :
  quiet not_fsync (@Fatalf A format args).
Proof. intros w. apply only_record. intros ? [=]. Qed.

Lemma quiet_MkdirAll_rec (fuel : nat) (path : string) (perm : Z) :
  quiet not_fsync (MkdirAll_rec fuel path perm).
Proof.
  revert path. induction fuel as [|fuel IH]; intros path w; simpl.
  - destruct (node_at w path) as [[]|]; apply only_refl.
  - destruct (node_at w path) as [[]|]; try apply only_refl.
    apply quiet_bind; [destruct (parent_of path); [apply IH|apply quiet_ret]|].
    intros [e|]; [apply quiet_ret|].
    apply quiet_bind; [apply quiet_os_Mkdir|].
    intros [e|]; [|apply quiet_ret].
    intros w1. destruct (is_dir w1 path); apply only_refl.
Qed.

Lemma quiet_PrepareDirs (fileName targetPath : string) :
  quiet not_fsync (PrepareDirs fileName targetPath).
Proof.
  unfold PrepareDirs. case_decide; [apply quiet_ret|apply quiet_MkdirAll_rec].
Qed.

Lemma quiet_WriteLocalFile (r : Reader) (h : Header) (f : File) :
  quiet not_fsync (WriteLocalFile r h f false).
Proof.
  unfold WriteLocalFile, io_Copy.
  apply quiet_bind.
  { destruct (r_data r); [apply quiet_ret|].
    apply quiet_bind; [apply quiet_write_at|]. intros [n [e|]]; apply quiet_ret. }
  intros [n [e|]].
  - apply quiet_bind; [apply quiet_os_Remove|].
    intros [e1|]; [apply quiet_Fatalf|apply quiet_ret].
  - apply quiet_bind; [apply quiet_File_Chmod|].
    intros [e|]; apply quiet_ret.
Qed.

Lemma quiet_write_blocks (f : File) (blocks : list (nat * list byte)) :
  quiet not_fsync (write_blocks f blocks).
Proof.
  induction blocks as [|[n page] rest IH]; simpl; [apply quiet_ret|].
  apply quiet_bind; [apply quiet_write_at|].
  intros [k [e|]]; [apply quiet_ret|apply IH].
Qed.

Lemma quiet_ApplyFileIncrement (fileName : string) (r : Reader) (createNew : bool) :
  quiet not_fsync (ApplyFileIncrement fileName r createNew false).
Proof.
  unfold ApplyFileIncrement.
  destruct (r_err r); [apply quiet_ret|].
  destruct (ReadIncrement (r_data r)) as [inc|]; [|apply quiet_ret].
  destruct (negb (well_framed inc)); [apply quiet_ret|].
  apply quiet_bind; [apply quiet_os_OpenFile|].
  intros [file|e]; [|apply quiet_ret].
  apply quiet_bind.
  - apply quiet_bind.
    + destruct createNew; [apply quiet_File_Truncate|apply quiet_ret].
    + intros [e|]; [apply quiet_ret|].
      apply quiet_bind; [apply quiet_write_blocks|].
      intros [e|]; apply quiet_ret.
  - intros err. apply quiet_bind; [|intros; apply quiet_ret].
    apply quiet_emit. intros ? [=].
Qed.

Lemma quiet_unwrapRegularFileOld (t : FileTarInterpreter) (r : Reader)
    (h : Header) (target : string) :
  quiet not_fsync (unwrapRegularFileOld t r h target false).
Proof.
  unfold unwrapRegularFileOld.
  destruct (match FilesToUnwrap t with Some _ => _ | None => _ end).
  { apply quiet_bind; [|intros; apply quiet_ret]. apply quiet_emit. intros ? [=]. }
  destruct (_ && _).
  { apply quiet_bind; [apply quiet_ApplyFileIncrement|intros; apply quiet_ret]. }
  apply quiet_bind; [apply quiet_PrepareDirs|].
  intros [e|]; [apply quiet_ret|].
  apply quiet_bind; [apply quiet_os_OpenFile|].
  intros [file|e]; [|apply quiet_ret].
  apply quiet_bind; [apply quiet_WriteLocalFile|].
  intros result. apply quiet_bind; [|intros; apply quiet_ret].
  apply quiet_emit. intros ? [=].
Qed.

(** Under the old unwrap logic no entry of any kind makes Interpret fsync
    a file, whatever the configured mode is. *)
Lemma Interpret_never_fsyncs (t : FileTarInterpreter) (r : Reader) (h : Header) :
  useNewUnwrapImplementation = false → quiet not_fsync (Interpret t r h).
Proof.
  intros Hold. unfold Interpret. rewrite Hold.
  apply quiet_bind; [apply quiet_emit; intros ? [=]|]. intros _.
  destruct (_ || _); [apply quiet_unwrapRegularFileOld|].
  destruct (bool_decide _).
  { apply quiet_bind; [apply quiet_MkdirAll_rec|].
    intros [e|]; [apply quiet_ret|].
    apply quiet_bind; [apply quiet_os_Chmod|]. intros [e|]; apply quiet_ret. }
  destruct (bool_decide _).
  { apply quiet_bind; [apply quiet_os_Link|]. intros [e|]; apply quiet_ret. }
  destruct (bool_decide _).
  { apply quiet_bind; [apply quiet_os_Symlink|]. intros [e|]; apply quiet_ret. }
  apply quiet_ret.
Qed.

(** *** Further properties of the interpreter *)

(** X1: on a freshly opened, empty file WriteLocalFile returns no error
    exactly when the reader ends cleanly, the write does not fail (an
    empty reader leads to no write at all), and neither chmod nor (when
    asked) fsync fails; the file then holds exactly the bytes of the
    reader, with the mode bits that chmod receives for the mode of the
    header (these are the nine permission bits of the header's mode when
    it holds none of Go's own flag bits), and the calls made are the
    writes of the copy (none for a reader without bytes), then chmod and,
    when asked, fsync. *)
Theorem WriteLocalFile_succeeds_iff (fileReader : Reader) (header : Header)
    (localFile : File) (fsync : bool) (w : World) (mode0 : Z) :
  File_offset localFile = 0%nat →
  fs w !! key (File_Name localFile) = Some (RegFile [] mode0) →
  let name := File_Name localFile in
  let mode := syscallMode (os_FileMode (Mode header)) in
  ((∃ w', WriteLocalFile fileReader header localFile fsync w = Returned None w')
   ↔ r_err fileReader = None
     ∧ (r_data fileReader ≠ [] → faults w SysWrite name = 0)
     ∧ faults w SysChmod name = 0
     ∧ (fsync = true → faults w SysFsync name = 0))
  ∧ (∀ w', WriteLocalFile fileReader header localFile fsync w = Returned None w' →
       fs w' = <[key name := RegFile (r_data fileReader) mode]> (fs w)
       ∧ ∃ writes,
           since w w'
           = writes ++ [EvChmod name mode] ++ (if fsync then [EvFsync name] else [])
           ∧ Forall (fun e => ∃ off data, e = EvWrite name off data) writes
           ∧ (writes = [] ↔ r_data fileReader = []))
  ∧ (0 ≤ Mode header < 2 ^ 20 → mode = Mode header mod 512).
Proof.
  intros Hoff Hnode name mode. split; [|split; [|apply syscallMode_below]].
  - unfold WriteLocalFile, io_Copy, write_at, os_Remove, File_Chmod, File_Sync,
      Fatalf, guarded, bind, ret. simpl. fold name in Hnode |- *.
    destruct (r_data fileReader) as [|b data'];
      [simpl|rewrite Hoff, Hnode, pwrite_empty_file]; split.
    + intros [w' Hrun]. revert Hrun.
      destruct (r_err fileReader) as [rerr|]; simpl.
      { destruct (decide (faults w SysUnlink name = 0)); [|done].
        rewrite Hnode. done. }
      destruct (decide (faults w SysChmod name = 0)) as [Hc|Hc]; [|done].
      rewrite Hnode. simpl. destruct fsync; simpl; [|done].
      destruct (decide (faults w SysFsync name = 0)); done.
    + intros (Herr & _ & Hc & Hs). rewrite Herr. simpl.
      rewrite decide_True by done. rewrite Hnode. simpl.
      destruct fsync; simpl; [|eauto].
      rewrite decide_True by auto. simpl. eauto.
    + intros [w' Hrun]. revert Hrun.
      destruct (decide (faults w SysWrite name = 0)) as [Hw|Hw]; simpl.
      2:{ destruct (decide (faults w SysUnlink name = 0)); [|done].
          rewrite lookup_insert_eq. done. }
      destruct (r_err fileReader) as [rerr|]; simpl.
      { destruct (decide (faults w SysUnlink name = 0)); [|done].
        rewrite lookup_insert_eq. done. }
      destruct (decide (faults w SysChmod name = 0)) as [Hc|Hc]; [|done].
      rewrite lookup_insert_eq. simpl. destruct fsync; simpl; [|done].
      destruct (decide (faults w SysFsync name = 0)); done.
    + intros (Herr & Hw & Hc & Hs). rewrite decide_True by (now apply Hw). simpl.
      rewrite Herr. simpl. rewrite decide_True by done.
      rewrite lookup_insert_eq. simpl. destruct fsync; simpl; [|eauto].
      rewrite decide_True by auto. simpl. eauto.
  - intros w' Hrun.
    eapply WriteLocalFile_fresh_success in Hrun as (_ & Hfs & _ & Hsince);
      [|done|done].
    split; [exact Hfs|].
    exists (copy_events (File_Name localFile) 0 (r_data fileReader)).
    split; [exact Hsince|]. unfold copy_events.
    destruct (r_data fileReader) as [|b data']; [done|].
    split; [repeat constructor; eauto|done].
Qed.

Lemma Interpret_regular (t : FileTarInterpreter) (r : Reader) (h : Header) (w : World) :
  useNewUnwrapImplementation = false →
  Typeflag h = TypeReg ∨ Typeflag h = TypeRegA →
  Interpret t r h w
  = unwrapRegularFileOld t r h (path_Join (DBDataDirectory t) (Name h)) false
      (record (EvLog DebugLevel "Interpreting: " [AStr (Name h)]) w).
Proof.
  intros Hold Hflag. unfold Interpret, bind, Debugln, emit. rewrite Hold.
  destruct Hflag as [-> | ->].
  - now rewrite bool_decide_eq_true_2.
  - rewrite (bool_decide_eq_true_2 (TypeRegA = TypeRegA)) by done.
    now rewrite orb_true_r.
Qed.

(** X2: under the old unwrap logic, in a file system without links, a
    regular-file entry (type '0' or the old type NUL) that the selection
    accepts and that is not an increment of an incremental backup: when
    Interpret returns no error, the reader ended cleanly and the file at
    the joined path holds exactly the bytes of the reader, with the mode
    bits that chmod receives for the mode of the entry; these are the
    nine permission bits of the header's mode when it holds none of Go's
    own flag bits. *)
Theorem Interpret_regular_file_is_byte_exact (t : FileTarInterpreter) (r : Reader)
    (h : Header) (w w' : World) :
  useNewUnwrapImplementation = false →
  Typeflag h = TypeReg ∨ Typeflag h = TypeRegA →
  accepted t (Name h) →
  (Files (FilesMetadata t) !! Name h = None
   ∨ (∃ d, Files (FilesMetadata t) !! Name h = Some d ∧ IsIncremented d = false)
   ∨ IsIncremental (Sentinel t) = false) →
  link_free w →
  Interpret t r h w = Returned None w' →
  let target := path_Join (DBDataDirectory t) (Name h) in
  r_err r = None
  ∧ fs w' !! key target
    = Some (RegFile (r_data r) (syscallMode (os_FileMode (Mode h))))
  ∧ (0 ≤ Mode h < 2 ^ 20 →
     fs w' !! key target = Some (RegFile (r_data r) (Mode h mod 512))).
Proof.
  intros Hold Hflag Hacc Hfull _ Hrun target.
  rewrite (Interpret_regular _ _ _ _ Hold Hflag) in Hrun.
  rewrite (unwrapRegularFileOld_accepted _ _ _ _ _ _ Hacc) in Hrun.
  rewrite (not_an_increment _ _ Hfull) in Hrun.
  apply fullFilePath_success in Hrun as [Herr Hfile].
  split; [exact Herr|]. split; [exact Hfile|].
  intros Hmode. now rewrite <- syscallMode_below.
Qed.

(** X3: an entry of a kind other than regular file, directory, hard link
    and symbolic link is passed over: Interpret returns no error, writes
    its debug line and leaves the file system alone. *)
Theorem Interpret_passes_over_other_kinds (t : FileTarInterpreter) (r : Reader)
    (h : Header) (w : World) :
  Typeflag h ∉ [TypeReg; TypeRegA; TypeDir; TypeLink; TypeSymlink] →
  ∃ w', Interpret t r h w = Returned None w'
        ∧ fs w' = fs w
        ∧ since w w' = [EvLog DebugLevel "Interpreting: " [AStr (Name h)]].
Proof.
  intros Hflag. unfold Interpret, bind, Debugln, emit, ret.
  rewrite !bool_decide_eq_false_2.
  - simpl. eexists. split; [reflexivity|]. split; [reflexivity|]. now eval_since.
  - intros Heq. apply Hflag. rewrite Heq. repeat constructor.
  - intros Heq. apply Hflag. rewrite Heq. repeat constructor.
  - intros Heq. apply Hflag. rewrite Heq. repeat constructor.
  - intros Heq. apply Hflag. rewrite Heq. repeat constructor.
  - intros Heq. apply Hflag. rewrite Heq. repeat constructor.
Qed.

Lemma only_not_in_since (w w' : World) :
  only not_fsync w w' → ∀ p, EvFsync p ∉ since w w'.
Proof.
  intros (evs & Htrace & Hall) p. rewrite (since_app _ _ _ Htrace).
  intros Hin. rewrite Forall_forall in Hall. now apply (Hall _ Hin p).
Qed.

(** X4: under the old unwrap logic Interpret asks for no fsync of any
    file, for an entry of any kind and however the call ends. *)
Theorem Interpret_asks_for_no_fsync (t : FileTarInterpreter) (r : Reader)
    (h : Header) (w : World) :
  useNewUnwrapImplementation = false →
  match Interpret t r h w with
  | Returned _ w' => ∀ p, EvFsync p ∉ since w w'
  | Exited w' => ∀ p, EvFsync p ∉ since w w'
  end.
Proof.
  intros Hold. pose proof (Interpret_never_fsyncs t r h Hold w) as Hquiet.
  destruct (Interpret t r h w); now apply only_not_in_since.
Qed.

Lemma os_Chmod_again (name : string) (mode : Z) (w w2 : World) (e : Event) :
  os_Chmod name mode w = Returned None w2 →
  is_dir w name = true →
  is_dir w2 name = true
  ∧ faults w2 = faults w
  ∧ (key name ≠ "/" → fs w2 !! key name = Some (Dir (syscallMode mode)))
  ∧ ∃ w3, os_Chmod name mode (record e w2) = Returned None w3 ∧ fs w3 = fs w2.
Proof.
  unfold os_Chmod, guarded, is_dir, node_at.
  destruct (decide (faults w SysChmod name = 0)) as [Hfault|]; [|discriminate].
  destruct (decide (key name = "/")) as [Hroot|Hroot].
  - destruct (fs w !! key name) as [[data m|m|o|o]|] eqn:Hnode;
      try discriminate; intros [= <-] _; simpl;
      rewrite ?decide_True by done; rewrite ?lookup_insert_eq, ?Hnode;
      (split; [reflexivity|]); (split; [reflexivity|]); (split; [done|]);
      eexists; (split; [reflexivity|]); simpl; now rewrite ?insert_insert_eq.
  - destruct (fs w !! key name) as [[data m|m|o|o]|] eqn:Hnode;
      try discriminate; intros [= <-]; try discriminate. intros _. simpl.
    rewrite decide_True by done. rewrite lookup_insert_eq.
    split; [reflexivity|]. split; [reflexivity|]. split; [done|].
    eexists. split; [reflexivity|]. simpl. now rewrite insert_insert_eq.
Qed.

(** X5: in a file system without links, a directory entry for which
    Interpret returns no error leaves a directory at the joined path, with
    the mode bits that chmod receives for the mode of the entry (the root
    apart); these are the nine permission bits of the header's mode when
    it holds none of Go's own flag bits.  Interpreting the same entry
    again returns no error and leaves the file system as it is. *)
Theorem Interpret_directory_twice (t : FileTarInterpreter) (r : Reader)
    (h : Header) (w w' : World) :
  Typeflag h = TypeDir →
  link_free w →
  Interpret t r h w = Returned None w' →
  let target := path_Join (DBDataDirectory t) (Name h) in
  is_dir w' target = true
  ∧ (key target ≠ "/" →
     fs w' !! key target = Some (Dir (syscallMode (os_FileMode (Mode h))))
     ∧ (0 ≤ Mode h < 2 ^ 20 → fs w' !! key target = Some (Dir (Mode h mod 512))))
  ∧ ∃ w'', Interpret t r h w' = Returned None w'' ∧ fs w'' = fs w'.
Proof.
  intros Hflag _ Hrun target.
  assert (Hdir : ∀ w0, Interpret t r h w0
    = (let* err := os_MkdirAll target perm_0755 in
       match err with
       | Some e => ret (Some (Wrapped e ("Interpret: failed to create all directories in "
                                          +:+ target)))
       | None =>
           let* err := os_Chmod target (os_FileMode (Mode h)) in
           match err with
           | Some e => ret (Some (Wrapped e "Interpret: chmod failed"))
           | None => ret None
           end
       end) (record (EvLog DebugLevel "Interpreting: " [AStr (Name h)]) w0)).
  { intros w0. unfold Interpret. unfold bind at 1. unfold Debugln, emit.
    rewrite Hflag. reflexivity. }
  rewrite Hdir in Hrun.
  apply bind_Returned in Hrun as ([e|] & w1 & Hmk & Hrun); [discriminate|].
  apply bind_Returned in Hrun as ([e|] & w2 & Hch & Hret); [discriminate|].
  injection Hret as <-.
  unfold os_MkdirAll in Hmk.
  destruct (MkdirAll_rec_frame (S (length (chars target))) perm_0755 target
              (record (EvLog DebugLevel "Interpreting: " [AStr (Name h)]) w))
    as (res & w1' & Hmk' & _ & _ & Hisdir).
  rewrite Hmk in Hmk'. injection Hmk' as <- <-. specialize (Hisdir eq_refl).
  destruct (os_Chmod_again _ _ _ _
              (EvLog DebugLevel "Interpreting: " [AStr (Name h)]) Hch Hisdir)
    as (Hdir2 & _ & Hmode & w3 & Hagain & Hsame).
  split; [exact Hdir2|]. split.
  { intros Hroot. split; [now apply Hmode|].
    intros Hbits. rewrite <- syscallMode_below by done. now apply Hmode. }
  exists w3. split; [|exact Hsame].
  rewrite Hdir. unfold bind.
  rewrite os_MkdirAll_existing by exact Hdir2. now rewrite Hagain.
Qed.

Lemma getFileSyncMode_cases (w : World) :
  let configured := GetString (viper w) TarFsyncMode in
  let falls := IsSet (viper w) TarDisableFsyncSetting
               && (bool_decide (configured = DEFAULT)
                   && GetBool (viper w) TarDisableFsyncSetting) in
  ∃ w', getFileSyncMode w = Returned (if falls then DISABLED else configured) w'
        ∧ since w w'
          = (if IsSet (viper w) TarDisableFsyncSetting
             then [EvLog WarningLevel deprecatedFileSyncMessage []] else [])
            ++ (if falls then [EvLog WarningLevel fallingBackFileSyncMessage []] else []).
Proof.
  intros configured falls. unfold falls, configured, getFileSyncMode. run.
  destruct (IsSet (viper w) TarDisableFsyncSetting); simpl.
  - destruct (bool_decide (GetString (viper w) TarFsyncMode = DEFAULT)); simpl.
    + destruct (GetBool (viper w) TarDisableFsyncSetting); simpl;
        eexists; (split; [reflexivity|]); now eval_since.
    + eexists. split; [reflexivity|]. now eval_since.
  - eexists. split; [reflexivity|]. unfold since. now rewrite drop_all.
Qed.

(** X6: resolving the mode always returns, leaves the file system alone,
    and yields the configured mode, except that it yields DISABLED where
    the legacy setting is set and true and the configured mode is DEFAULT.
    With the legacy setting unset nothing is logged; with it set, the
    deprecation warning is logged, and the fallback warning after it
    exactly when the mode falls back. *)
Theorem getFileSyncMode_only_narrows (w : World) :
  let configured := GetString (viper w) TarFsyncMode in
  let isSet := IsSet (viper w) TarDisableFsyncSetting in
  let falls := isSet && (bool_decide (configured = DEFAULT)
                         && GetBool (viper w) TarDisableFsyncSetting) in
  ∃ mode w', getFileSyncMode w = Returned mode w'
    ∧ fs w' = fs w
    ∧ (mode = configured ∨ mode = DISABLED)
    ∧ (mode ≠ configured → falls = true)
    ∧ (falls = true → mode = DISABLED)
    ∧ since w w'
      = (if isSet then [EvLog WarningLevel deprecatedFileSyncMessage []] else [])
        ++ (if falls then [EvLog WarningLevel fallingBackFileSyncMessage []] else []).
Proof.
  intros configured isSet falls.
  destruct (getFileSyncMode_cases w) as (w' & Hrun & Hsince).
  fold configured isSet falls in Hrun, Hsince.
  destruct (getFileSyncMode_logs_only _ _ _ Hrun) as (Hfs & _).
  exists (if falls then DISABLED else configured), w'.
  split; [exact Hrun|]. split; [exact Hfs|].
  destruct falls; repeat split; auto; try done.
Qed.

Lemma EvSync_not_logged (w : World) (w1 : World) (mode : string) :
  getFileSyncMode w = Returned mode w1 →
  ∃ logs, since w w1 = logs ∧ trace w1 = trace w ++ logs ∧ (EvSync ∉ logs)
          ∧ faults w1 = faults w ∧ fs w1 = fs w.
Proof.
  intros Hrun.
  destruct (getFileSyncMode_logs_only _ _ _ Hrun) as (Hfs & Hfaults & logs & Htrace & Hno).
  exists logs. rewrite (since_app _ _ _ Htrace). auto.
Qed.

(** X7: the finalize hook under the mode DEFAULT.  Unless the legacy
    setting is set and true, it issues exactly one sync of the whole file
    system, as under GLOBAL, and returns its errno as an error when that
    is not zero.  With the legacy setting set and true it logs the two
    warnings, issues no sync and returns no error. *)
Theorem OnInterpretFinish_under_default (t : FileTarInterpreter) (w : World) :
  DISABLED ≠ GLOBAL → DISABLED ≠ DEFAULT →
  GetString (viper w) TarFsyncMode = DEFAULT →
  let legacy := IsSet (viper w) TarDisableFsyncSetting
                && GetBool (viper w) TarDisableFsyncSetting in
  ∃ result w', OnInterpretFinish t w = Returned result w'
    ∧ fs w' = fs w
    ∧ (legacy = false →
         result = (if decide (faults w SysSync "" = 0) then None
                   else Some (ErrorfD "FileTarInterpreter: global fsync failed with error code %d"
                                (faults w SysSync "")))
         ∧ ∃ logs, since w w' = logs ++ [EvSync] ∧ EvSync ∉ logs)
    ∧ (legacy = true →
         result = None
         ∧ since w w' = [EvLog WarningLevel deprecatedFileSyncMessage [];
                         EvLog WarningLevel fallingBackFileSyncMessage []]).
Proof.
  intros Hdg Hdd Hmode legacy.
  destruct (getFileSyncMode_cases w) as (w1 & Hrun & Hsince).
  rewrite Hmode, bool_decide_eq_true_2 in Hrun, Hsince by done.
  simpl in Hrun, Hsince. fold legacy in Hrun, Hsince.
  destruct (EvSync_not_logged _ _ _ Hrun) as (logs & Hlogs & Htrace & Hno & Hfaults & Hfs).
  unfold OnInterpretFinish, bind. rewrite Hrun.
  destruct legacy eqn:Hlegacy.
  - rewrite !bool_decide_eq_false_2 by done. simpl. unfold ret.
    do 2 eexists. split; [reflexivity|]. split; [exact Hfs|].
    split; [discriminate|]. intros _. split; [reflexivity|].
    rewrite Hsince. apply andb_true_iff in Hlegacy as [-> _].
    reflexivity.
  - rewrite (bool_decide_eq_true_2 (DEFAULT = DEFAULT)) by done.
    rewrite orb_true_r. unfold unix_Sync, ret. simpl. rewrite Hfaults.
    destruct (decide (faults w SysSync "" = 0)) as [Hz|Hnz].
    + rewrite Hz. simpl. do 2 eexists. split; [reflexivity|]. split; [exact Hfs|].
      split; [|discriminate]. intros _. split; [reflexivity|].
      exists logs. split; [|exact Hno]. apply since_app. simpl.
      rewrite Htrace. now rewrite <- app_assoc.
    + rewrite decide_True by done. do 2 eexists. split; [reflexivity|].
      split; [exact Hfs|]. split; [|discriminate]. intros _. split; [reflexivity|].
      exists logs. split; [|exact Hno]. apply since_app. simpl.
      rewrite Htrace. now rewrite <- app_assoc.
Qed.

(** X8: the finalize hook always returns and never changes the file
    system; it issues at most one sync, and none when the resolved mode is
    neither GLOBAL nor DEFAULT; it returns an error only after a sync that
    reported a non-zero errno, and the error holds this errno. *)
Theorem OnInterpretFinish_error_only_from_sync (t : FileTarInterpreter) (w : World) :
  ∃ mode w1 result w',
    getFileSyncMode w = Returned mode w1
    ∧ OnInterpretFinish t w = Returned result w'
    ∧ fs w' = fs w
    ∧ (mode ≠ GLOBAL → mode ≠ DEFAULT → result = None ∧ EvSync ∉ since w w')
    ∧ (∀ e, result = Some e →
         faults w SysSync "" ≠ 0
         ∧ e = ErrorfD "FileTarInterpreter: global fsync failed with error code %d"
                 (faults w SysSync "")
         ∧ EvSync ∈ since w w')
    ∧ (∃ logs, (EvSync ∉ logs) ∧ (since w w' = logs ∨ since w w' = logs ++ [EvSync])).
Proof.
  destruct (getFileSyncMode_cases w) as (w1 & Hrun & _).
  destruct (EvSync_not_logged _ _ _ Hrun) as (logs & Hlogs & Htrace & Hno & Hfaults & Hfs).
  eexists _, w1. unfold OnInterpretFinish, bind. rewrite Hrun.
  destruct (bool_decide _ || bool_decide _) eqn:Hsync.
  - unfold unix_Sync, ret. simpl. rewrite Hfaults.
    assert (Hsince : since w (record EvSync w1) = logs ++ [EvSync]).
    { apply since_app. simpl. rewrite Htrace. now rewrite <- app_assoc. }
    destruct (decide (faults w SysSync "" ≠ 0)) as [Hnz|Hz].
    + do 2 eexists. split; [reflexivity|]. split; [reflexivity|]. split; [exact Hfs|].
      split; [|split].
      * intros Hg Hd. apply orb_true_iff in Hsync as [H1|H1];
          apply bool_decide_eq_true_1 in H1; done.
      * intros e [= <-]. split; [exact Hnz|]. split; [reflexivity|].
        rewrite Hsince. apply elem_of_app. right. left.
      * exists logs. split; [exact Hno|]. now right.
    + do 2 eexists. split; [reflexivity|]. split; [reflexivity|]. split; [exact Hfs|].
      split; [|split].
      * intros Hg Hd. apply orb_true_iff in Hsync as [H1|H1];
          apply bool_decide_eq_true_1 in H1; done.
      * intros e [=].
      * exists logs. split; [exact Hno|]. now right.
  - unfold ret. do 2 eexists. split; [reflexivity|]. split; [reflexivity|].
    split; [exact Hfs|]. split; [|split].
    + intros _ _. split; [reflexivity|]. now rewrite Hlogs.
    + intros e [=].
    + exists logs. split; [exact Hno|]. now left.
Qed.

Lemma str_app_assoc (a b c : string) : (a +:+ b) +:+ c = a +:+ (b +:+ c).
Proof.
  induction a as [|x a IH]; [reflexivity|].
  change (String x ((a +:+ b) +:+ c) = String x (a +:+ (b +:+ c))).
  now rewrite IH.
Qed.

Lemma key_length (p : string) : (length (chars (key p)) ≤ length (chars p))%nat.
Proof.
  unfold key. pose proof (skip_seps_length (rev (chars p))) as Hskip.
  rewrite length_rev in Hskip.
  destruct (skip_seps (rev (chars p))) as [|c l].
  - case_decide as Hp; [subst; simpl; lia|]. destruct p; [done|simpl; lia].
  - rewrite chars_str, length_rev. exact Hskip.
Qed.

(** os.MkdirAll leaves alone every name longer than its path. *)
Lemma MkdirAll_rec_keeps_longer (fuel : nat) (perm : Z) (path : string)
    (w w' : World) (result : option error) :
  MkdirAll_rec fuel path perm w = Returned result w' →
  ∀ k, (length (chars path) < length (chars k))%nat → fs w' !! k = fs w !! k.
Proof.
  revert path w w' result. induction fuel as [|fuel IH]; intros path w w' result; simpl.
  - destruct (node_at w path) as [[]|]; intros [= <- <-]; done.
  - destruct (node_at w path) as [[]|]; try (intros [= <- <-]; done).
    intros Hrun k Hk.
    apply bind_Returned in Hrun as (err & w1 & Hparent & Hrun).
    assert (Hw1 : fs w1 !! k = fs w !! k).
    { destruct (parent_of path) as [d|] eqn:Hd.
      - apply parent_of_shorter in Hd as [_ Hlen].
        eapply IH; [exact Hparent|lia].
      - now injection Hparent as <- <-. }
    destruct err as [e|]; [injection Hrun as <- <-; exact Hw1|].
    apply bind_Returned in Hrun as (err & w2 & Hmk & Hrun).
    assert (Hw2 : fs w2 !! k = fs w1 !! k).
    { destruct (os_Mkdir_cases path perm w1) as [[e He]|[Hok _]].
      - rewrite He in Hmk. now injection Hmk as <- <-.
      - rewrite Hok in Hmk. injection Hmk as <- <-. simpl.
        apply lookup_insert_ne. intros <-.
        pose proof (key_length path). lia. }
    destruct err as [e|].
    + destruct (is_dir w2 path); injection Hrun as <- <-; congruence.
    + injection Hrun as <- <-. congruence.
Qed.

Lemma whole_match {A B : Type} (l : list A) (a : B) (f : list A → B) :
  l ≠ [] → match l with [] => a | x :: r => f (x :: r) end = f l.
Proof. destruct l; done. Qed.

Lemma rev_chars_last (pre elem : string) :
  rev (chars (pre +:+ "/" +:+ elem))
  = rev (chars elem) ++ "/"%char :: rev (chars pre).
Proof.
  rewrite !chars_app. simpl. rewrite rev_app_distr. simpl.
  now rewrite <- app_assoc.
Qed.

Lemma plain_rev (elem : string) :
  plain elem = true →
  rev (chars elem) ≠ []
  ∧ forallb (fun c => negb (is_sep c)) (rev (chars elem)) = true.
Proof.
  unfold plain. intros [Hne Hplain]%andb_true_iff.
  apply negb_true_iff, bool_decide_eq_false_1 in Hne. split.
  - intros Hnil. apply Hne, chars_empty.
    rewrite <- (rev_involutive (chars elem)), Hnil. reflexivity.
  - now rewrite forallb_rev.
Qed.

Lemma key_plain_end (pre elem : string) :
  plain elem = true → key (pre +:+ "/" +:+ elem) = pre +:+ "/" +:+ elem.
Proof.
  intros [Hne Hplain]%plain_rev. unfold key.
  rewrite rev_chars_last, skip_seps_plain by done.
  rewrite (whole_match _ _ (fun r => str (rev r))).
  - rewrite <- rev_chars_last, rev_involutive. apply str_chars.
  - destruct (rev (chars elem)); done.
Qed.

Lemma parent_of_last (pre elem : string) :
  plain elem = true →
  parent_of (pre +:+ "/" +:+ elem) = if decide (pre = "") then None else Some pre.
Proof.
  intros [Hne Hplain]%plain_rev. unfold parent_of.
  rewrite rev_chars_last, skip_seps_plain, span_elem_plain by done.
  cbn [snd tail]. rewrite rev_involutive, str_chars.
  cbn [length]. rewrite length_rev.
  destruct pre; simpl; repeat case_decide; try done; lia.
Qed.

Lemma key_trailing_sep (pre : string) : pre ≠ "" → key (pre +:+ "/") = key pre.
Proof.
  intros Hne. unfold key. rewrite chars_app. simpl. rewrite rev_app_distr. simpl.
  rewrite decide_False; [now rewrite decide_False|].
  destruct pre; done.
Qed.

Lemma WriteLocalFile_fresh_returns (fileReader : Reader) (header : Header)
    (localFile : File) (fsync : bool) (w : World) (mode0 : Z) :
  File_offset localFile = 0%nat →
  fs w !! key (File_Name localFile) = Some (RegFile [] mode0) →
  r_err fileReader = None →
  (∀ c, faults w c (File_Name localFile) = 0) →
  ∃ w', WriteLocalFile fileReader header localFile fsync w = Returned None w'.
Proof.
  intros Hoff Hnode Herr Hfaults.
  unfold WriteLocalFile, io_Copy, write_at, File_Chmod, File_Sync, guarded, bind, ret.
  simpl. destruct (r_data fileReader) as [|b data'].
  - rewrite Herr. rewrite decide_True by apply Hfaults. rewrite Hnode. simpl.
    destruct fsync; simpl; [|eauto].
    rewrite decide_True by apply Hfaults. simpl. eauto.
  - rewrite Hoff, Hnode, pwrite_empty_file.
    rewrite decide_True by apply Hfaults. simpl. rewrite Herr. simpl.
    rewrite decide_True by apply Hfaults. rewrite lookup_insert_eq. simpl.
    destruct fsync; simpl; [|eauto].
    rewrite decide_True by apply Hfaults. simpl. eauto.
Qed.

(** The full-file path goes through.  The entry's name ends in the element
    [elem] and is restored to [pre/elem]; nothing but directories stands
    where [pre] and the directories above it are to be, the target is
    free or a regular file, the reader ends cleanly and no system call
    fails for an outside reason. *)
Lemma fullFilePath_goes_through (r : Reader) (h : Header) (pre elem : string)
    (fsync : bool) (w : World) :
  plain elem = true →
  ((∃ sub, Name h = sub +:+ "/" +:+ elem) ∨ Name h = elem) →
  let target := pre +:+ "/" +:+ elem in
  Name h ≠ target →
  clear_way w (pre +:+ "/") = true →
  (fs w !! target = None ∨ ∃ data mode, fs w !! target = Some (RegFile data mode)) →
  r_err r = None →
  (∀ c q, faults w c q = 0) →
  key target = target
  ∧ ∃ w', fullFilePath r h target fsync w = Returned None w'
          ∧ fs w' !! target
            = Some (RegFile (r_data r) (syscallMode (os_FileMode (Mode h)))).
Proof.
  intros Hplain Hname target Hne Hway Hfree Herr Hfaults.
  assert (Hbase : filepath_Base (Name h) = elem).
  { destruct Hname as [[sub ->]| ->];
      [now apply filepath_Base_last|now apply filepath_Base_plain]. }
  assert (Hkey : key target = target) by now apply key_plain_end.
  assert (Hlong : (2 ≤ length (chars target))%nat).
  { unfold target. rewrite !chars_app, !length_app. simpl.
    destruct elem; [done|simpl; lia]. }
  assert (Hnotroot : target ≠ "/") by (intros E; rewrite E in Hlong; simpl in Hlong; lia).
  assert (Hnotempty : target ≠ "") by (intros E; rewrite E in Hlong; simpl in Hlong; lia).
  set (dir := pre +:+ "/").
  assert (Htarget : target = dir +:+ elem).
  { unfold target, dir. now rewrite str_app_assoc. }
  split; [exact Hkey|].
  (* the directories *)
  assert (Hprep : PrepareDirs (Name h) target = os_MkdirAll dir perm_0755).
  { unfold PrepareDirs. rewrite decide_False by done.
    now rewrite Hbase, Htarget, strings_TrimSuffix_app. }
  destruct (MkdirAll_rec_total (S (length (chars dir))) perm_0755 dir w)
    as [w1 Hmk]; [lia|unfold dir; now destruct pre|auto|exact Hway|].
  destruct (MkdirAll_rec_frame (S (length (chars dir))) perm_0755 dir w)
    as (res & w1' & Hmk' & Hfaults1 & _ & Hisdir).
  rewrite Hmk in Hmk'. injection Hmk' as <- <-. specialize (Hisdir eq_refl).
  assert (Hkept : fs w1 !! target = fs w !! target).
  { eapply MkdirAll_rec_keeps_longer; [exact Hmk|].
    rewrite Htarget, chars_app, length_app.
    destruct elem; [done|simpl; lia]. }
  (* the open *)
  assert (Hopen : ∃ w2 mode,
    os_OpenFile target (Z.lor O_WRONLY (Z.lor O_CREATE O_TRUNC)) perm_0666 w1
    = Returned (Success {| File_Name := target; File_offset := 0 |}) w2
    ∧ fs w2 !! key target = Some (RegFile [] mode)
    ∧ faults w2 = faults w).
  { unfold os_OpenFile, guarded, node_at. rewrite Hfaults1, Hkey.
    rewrite decide_True by apply Hfaults.
    rewrite decide_False by done.
    rewrite Hkept. destruct Hfree as [->|(data & mode & ->)].
    - assert (Hparent : parent_ok w1 target = true).
      { unfold parent_ok, target. rewrite parent_of_last by done.
        case_decide as Hpre; [reflexivity|].
        unfold is_dir, node_at in *. now rewrite <- key_trailing_sep. }
      rewrite Hparent. rewrite bool_decide_eq_false_2 by done.
      simpl. do 2 eexists. split; [reflexivity|]. simpl.
      split; [apply lookup_insert_eq|exact Hfaults1].
    - simpl. do 2 eexists. split; [reflexivity|]. simpl.
      split; [apply lookup_insert_eq|exact Hfaults1]. }
  destruct Hopen as (w2 & mode & Hopen & Hfresh & Hfaults2).
  (* the copy *)
  destruct (WriteLocalFile_fresh_returns r h
              {| File_Name := target; File_offset := 0 |} fsync w2 mode)
    as [w3 Hwrite]; [reflexivity|exact Hfresh|exact Herr| |].
  { intros c. rewrite Hfaults2. apply Hfaults. }
  assert (Hrun : fullFilePath r h target fsync w
                 = Returned None (record (EvClose target) w3)).
  { unfold fullFilePath, bind. rewrite Hprep. unfold os_MkdirAll. rewrite Hmk.
    rewrite Hopen, Hwrite. reflexivity. }
  eexists. split; [exact Hrun|].
  apply fullFilePath_success in Hrun as [_ Hfile]. now rewrite Hkey in Hfile.
Qed.

(** X9: a full-file restore goes through.  For an accepted entry that is
    not an increment of an incremental backup, whose name ends in the
    element [elem], restored to [pre/elem]: when nothing but directories
    stands where [pre] and the directories above it are to be, the target
    is free or a regular file, the reader ends cleanly and no system call
    fails for an outside reason, unwrapRegularFileOld returns no error and
    the target holds exactly the bytes of the reader, whatever it held
    before, with the mode bits that chmod receives for the mode of the
    entry: its permission bits, whatever else the header's mode holds. *)
Theorem unwrapRegularFileOld_restores_file (t : FileTarInterpreter) (r : Reader)
    (h : Header) (pre elem : string) (fsync : bool) (w : World) :
  accepted t (Name h) →
  (Files (FilesMetadata t) !! Name h = None
   ∨ (∃ d, Files (FilesMetadata t) !! Name h = Some d ∧ IsIncremented d = false)
   ∨ IsIncremental (Sentinel t) = false) →
  plain elem = true →
  ((∃ sub, Name h = sub +:+ "/" +:+ elem) ∨ Name h = elem) →
  let target := pre +:+ "/" +:+ elem in
  Name h ≠ target →
  clear_way w (pre +:+ "/") = true →
  (fs w !! target = None ∨ ∃ data mode, fs w !! target = Some (RegFile data mode)) →
  r_err r = None →
  (∀ c q, faults w c q = 0) →
  ∃ w', unwrapRegularFileOld t r h target fsync w = Returned None w'
        ∧ fs w' !! target
          = Some (RegFile (r_data r) (syscallMode (os_FileMode (Mode h)))).
Proof.
  intros Hacc Hfull Hplain Hname target Hne Hway Hfree Herr Hfaults.
  rewrite (unwrapRegularFileOld_accepted _ _ _ _ _ _ Hacc).
  rewrite (not_an_increment _ _ Hfull).
  destruct (fullFilePath_goes_through r h pre elem fsync w)
    as (_ & w' & Hrun & Hfile); try done.
  exists w'. split; [exact Hrun|exact Hfile].
Qed.

(** C6: the restore selection.  Without a selection, or for a name that is
    a member of it, the entry is materialized: the call is the one of an
    interpreter without selection, which is the increment path or the
    full-file path; when it returns no error a regular file is at the
    target path, and for an entry that is not an increment this file
    holds exactly the bytes of the reader.  For a name that is not a
    member of the configured selection the call returns no error, the
    file system is as before and only a debug line was written.  Every
    entry is of exactly one of the two kinds.  Where a full-file restore
    can go through (the target path is free, only directories stand where
    its directory and the ones above are to be, the reader ends cleanly,
    no system call fails for an outside reason), the call returns no
    error, and afterwards the file is at the target path if and only if
    no selection is configured or the name is a member of it; otherwise
    the target path is still free. *)
Theorem unwrapRegularFileOld_selection (t : FileTarInterpreter) (r : Reader)
    (h : Header) (target : string) (fsync : bool) (w : World) :
  let call := unwrapRegularFileOld t r h target fsync w in
  let found := Files (FilesMetadata t) !! Name h in
  let full := found = None ∨ (∃ d, found = Some d ∧ IsIncremented d = false)
              ∨ IsIncremental (Sentinel t) = false in
  let restored w' :=
    fs w' !! key target
    = Some (RegFile (r_data r) (syscallMode (os_FileMode (Mode h)))) in
  (accepted t (Name h) →
     call = unwrapRegularFileOld (unfiltered t) r h target fsync w
     ∧ call = (if bool_decide (is_Some found) && IsIncremental (Sentinel t)
                  && IsIncremented (default zeroFileDescription found)
               then incrementPath t r target fsync w
               else fullFilePath r h target fsync w)
     ∧ (∀ w', call = Returned None w' →
          ∃ data mode, fs w' !! key target = Some (RegFile data mode))
     ∧ (full → ∀ w', call = Returned None w' → r_err r = None ∧ restored w')) ∧
  (excluded t (Name h) →
     ∃ w', call = Returned None w'
       ∧ fs w' = fs w
       ∧ since w w' = [EvLog DebugLevel ("Don't have to unwrap '%s' this time" +:+ nl)
                         [AStr (Name h)]]) ∧
  (accepted t (Name h) ∨ excluded t (Name h)) ∧
  ¬ (accepted t (Name h) ∧ excluded t (Name h)) ∧
  (∀ pre elem,
     full →
     plain elem = true →
     ((∃ sub, Name h = sub +:+ "/" +:+ elem) ∨ Name h = elem) →
     target = pre +:+ "/" +:+ elem →
     Name h ≠ target →
     clear_way w (pre +:+ "/") = true →
     fs w !! key target = None →
     r_err r = None →
     (∀ c q, faults w c q = 0) →
     ∃ w', call = Returned None w'
       ∧ (restored w' ↔ accepted t (Name h))
       ∧ (fs w' !! key target = None ↔ excluded t (Name h))).
Proof.
  intros call found full restored.
  assert (Hexcluded : excluded t (Name h) →
    ∃ w', call = Returned None w'
      ∧ fs w' = fs w
      ∧ since w w' = [EvLog DebugLevel ("Don't have to unwrap '%s' this time" +:+ nl)
                        [AStr (Name h)]]).
  { intros (sel & Hsel & Hnone). unfold call, unwrapRegularFileOld.
    rewrite Hsel, Hnone. rewrite bool_decide_eq_false_2 by (intros [? [=]]).
    simpl. run. eexists. split; [reflexivity|]. split; [reflexivity|].
    now eval_since. }
  destruct (accepted_or_excluded t (Name h)) as [Hcases Hapart].
  split; [|split; [exact Hexcluded|split; [exact Hcases|split; [exact Hapart|]]]].
  - intros Hacc.
    assert (Hsame : call = unwrapRegularFileOld (unfiltered t) r h target fsync w).
    { unfold call, unwrapRegularFileOld.
      now rewrite (accepted_not_skipped _ _ Hacc). }
    split; [exact Hsame|].
    split; [exact (unwrapRegularFileOld_accepted _ _ _ _ _ _ Hacc)|]. split.
    + intros w' Hrun. unfold call in Hrun.
      rewrite (unwrapRegularFileOld_accepted _ _ _ _ _ _ Hacc) in Hrun.
      destruct (_ && _).
      * apply incrementPath_success, ApplyFileIncrement_success in Hrun
          as (inc & base & mode & _ & _ & _ & _ & Hfs). eauto.
      * apply fullFilePath_success in Hrun as [_ Hfs]. eauto.
    + intros Hfull w' Hrun. unfold call in Hrun.
      rewrite (unwrapRegularFileOld_accepted _ _ _ _ _ _ Hacc) in Hrun.
      rewrite (not_an_increment _ _ Hfull) in Hrun.
      now apply fullFilePath_success in Hrun.
  - intros pre elem Hfull Hplain Hname -> Hne Hway Hfree Herr Hfaults.
    assert (Hkey : key (pre +:+ "/" +:+ elem) = pre +:+ "/" +:+ elem)
      by now apply key_plain_end.
    rewrite Hkey in Hfree.
    destruct (fullFilePath_goes_through r h pre elem fsync w)
      as (_ & w' & Hrun & Hfile); try done; [now left|].
    destruct Hcases as [Hacc|Hexc].
    + exists w'. unfold call, restored.
      rewrite (unwrapRegularFileOld_accepted _ _ _ _ _ _ Hacc).
      rewrite (not_an_increment _ _ Hfull), Hkey.
      split; [exact Hrun|]. split; [done|]. rewrite Hfile. split; [done|].
      intros Hexc. exfalso. now apply Hapart.
    + destruct (Hexcluded Hexc) as (w'' & Hrun' & Hfs & _).
      exists w''. split; [exact Hrun'|]. unfold restored. rewrite Hfs, Hkey, Hfree.
      split; [split; [done|]|done].
      intros Hacc. exfalso. now apply Hapart.
Qed.

Lemma node_at_insert_is_Some (w w' : World) (k : string) (n : Node) (p : string) :
  fs w' = <[k := n]> (fs w) → is_Some (node_at w p) → is_Some (node_at w' p).
Proof.
  unfold node_at. intros Hfs. case_decide; [done|]. rewrite Hfs.
  destruct (decide (k = key p)) as [->|Hne].
  - rewrite lookup_insert_eq. eauto.
  - now rewrite lookup_insert_ne.
Qed.

Lemma node_at_insert_here (w w' : World) (n : Node) (p : string) :
  fs w' = <[key p := n]> (fs w) → is_Some (node_at w' p).
Proof.
  unfold node_at. intros Hfs. case_decide; [eauto|].
  rewrite Hfs, lookup_insert_eq. eauto.
Qed.

(** X15: link entries cannot be interpreted twice.  After Interpret has
    created the hard link (symbolic link) of an entry, interpreting the
    same entry again returns the error "file exists" for the target path,
    wrapped, and leaves the file system as it is. *)
Theorem Interpret_link_twice (t : FileTarInterpreter) (r : Reader) (h : Header)
    (w w' : World) :
  let target := path_Join (DBDataDirectory t) (Name h) in
  (Typeflag h = TypeLink → Interpret t r h w = Returned None w' →
     ∃ w'', Interpret t r h w'
            = Returned (Some (Wrapped (Errno SysLink target EEXIST)
                                ("Interpret: failed to create hardlink " +:+ target))) w''
            ∧ fs w'' = fs w') ∧
  (Typeflag h = TypeSymlink → Interpret t r h w = Returned None w' →
     ∃ w'', Interpret t r h w'
            = Returned (Some (Wrapped (Errno SysSymlink target EEXIST)
                                ("Interpret: failed to create symlink " +:+ target))) w''
            ∧ fs w'' = fs w').
Proof.
  intros target. set (greeting := EvLog DebugLevel "Interpreting: " [AStr (Name h)]).
  split; intros Hflag Hrun.
  - assert (Hlink : ∀ w0, Interpret t r h w0
      = (let* err := os_Link (Name h) target in
         match err with
         | Some e => ret (Some (Wrapped e ("Interpret: failed to create hardlink "
                                            +:+ target)))
         | None => ret None
         end) (record greeting w0)).
    { intros w0. unfold Interpret. unfold bind at 1. unfold Debugln, emit.
      rewrite Hflag. reflexivity. }
    rewrite Hlink in Hrun.
    apply bind_Returned in Hrun as ([e|] & w1 & Hfirst & Hret); [discriminate|].
    injection Hret as <-.
    assert (Hstate : faults w1 SysLink target = 0
                     ∧ is_Some (node_at w1 (Name h)) ∧ is_Some (node_at w1 target)).
    { revert Hfirst. unfold os_Link, guarded.
      destruct (decide (faults (record greeting w) SysLink target = 0)) as [Hf|];
        [|discriminate].
      destruct (node_at (record greeting w) (Name h)) as [old|] eqn:Hold;
        [|discriminate].
      destruct (node_at (record greeting w) target) eqn:Hnew; [discriminate|].
      destruct (_ && _); [|discriminate].
      assert (Hsome : is_Some (node_at (record greeting w) (Name h))) by eauto.
      clear Hold. destruct old; try discriminate; intros [= <-];
        (split; [exact Hf|]);
        (split; [|eapply (node_at_insert_here (record greeting w)); reflexivity]);
        now eapply (node_at_insert_is_Some (record greeting w)). }
    destruct Hstate as (Hf & [old Hold] & [new Hnew]).
    rewrite Hlink. unfold bind, os_Link, guarded.
    rewrite !node_at_record. simpl. rewrite decide_True by exact Hf.
    rewrite Hold, Hnew. eexists. split; reflexivity.
  - assert (Hlink : ∀ w0, Interpret t r h w0
      = (let* err := os_Symlink (Name h) target in
         match err with
         | Some e => ret (Some (Wrapped e ("Interpret: failed to create symlink "
                                            +:+ target)))
         | None => ret None
         end) (record greeting w0)).
    { intros w0. unfold Interpret. unfold bind at 1. unfold Debugln, emit.
      rewrite Hflag. reflexivity. }
    rewrite Hlink in Hrun.
    apply bind_Returned in Hrun as ([e|] & w1 & Hfirst & Hret); [discriminate|].
    injection Hret as <-.
    assert (Hstate : faults w1 SysSymlink target = 0 ∧ is_Some (node_at w1 target)).
    { revert Hfirst. unfold os_Symlink, guarded.
      destruct (decide (faults (record greeting w) SysSymlink target = 0)) as [Hf|];
        [|discriminate].
      destruct (node_at (record greeting w) target) eqn:Hnew; [discriminate|].
      destruct (_ && _); [|discriminate]. intros [= <-]. split; [exact Hf|].
      eapply (node_at_insert_here (record greeting w)). reflexivity. }
    destruct Hstate as (Hf & [new Hnew]).
    rewrite Hlink. unfold bind, os_Symlink, guarded.
    rewrite !node_at_record. simpl. rewrite decide_True by exact Hf.
    rewrite Hnew. eexists. split; reflexivity.
Qed.

(** X16: the two edges of the restore selection.  A name that is a key of
    the selection is restored whatever boolean the map holds for it, also
    false: the call is the one of an interpreter without selection.  A
    selection that is configured but empty restores nothing: for every
    entry the call returns no error and leaves the file system alone. *)
Theorem unwrapRegularFileOld_selection_edges (t : FileTarInterpreter) (r : Reader)
    (h : Header) (target : string) (fsync : bool) (w : World) :
  (∀ selection, FilesToUnwrap t = Some selection →
     selection !! Name h = Some false →
     unwrapRegularFileOld t r h target fsync w
     = unwrapRegularFileOld (unfiltered t) r h target fsync w) ∧
  (FilesToUnwrap t = Some ∅ →
     ∃ w', unwrapRegularFileOld t r h target fsync w = Returned None w'
           ∧ fs w' = fs w).
Proof.
  split.
  - intros selection Hsel Hkey. unfold unwrapRegularFileOld.
    rewrite Hsel, Hkey. rewrite bool_decide_eq_true_2 by eauto. reflexivity.
  - intros Hsel. unfold unwrapRegularFileOld. rewrite Hsel, lookup_empty.
    rewrite bool_decide_eq_false_2 by (intros [? [=]]). simpl.
    unfold bind, Debugf, emit, ret. eauto.
Qed.

(** What os.MkdirAll asks of the environment: mkdir calls, each with the
    permission it was given. *)
Lemma MkdirAll_rec_asks (fuel : nat) (path : string) (perm : Z) :
  quiet (fun e => ∃ p, e = EvMkdir p perm) (MkdirAll_rec fuel path perm).
Proof.
  revert path. induction fuel as [|fuel IH]; intros path w; simpl.
  - destruct (node_at w path) as [[]|]; apply only_refl.
  - destruct (node_at w path) as [[]|]; try apply only_refl.
    apply quiet_bind; [destruct (parent_of path); [apply IH|apply quiet_ret]|].
    intros [e|]; [apply quiet_ret|].
    apply quiet_bind.
    { intros w1. unfold os_Mkdir, guarded.
      destruct (decide _); [|apply only_record; eauto].
      destruct (node_at w1 path); [apply only_record; eauto|].
      destruct (_ && _); [apply only_with_fs|]; apply only_record; eauto. }
    intros [e|]; [|apply quiet_ret].
    intros w1. destruct (is_dir w1 path); apply only_refl.
Qed.

(** X17: a directory entry goes through.  When the joined path is neither
    empty nor the root, nothing but directories stands where it and the
    directories above it are to be, and no system call fails for an
    outside reason, Interpret returns no error.  The calls it makes are
    mkdir with permission 0755 for the directories that are missing and
    then one chmod of the joined path; the directory is there with the
    mode bits that chmod receives for the mode of the entry, and all else
    that changed in the file system are directories at names that were
    free. *)
Theorem Interpret_directory_goes_through (t : FileTarInterpreter) (r : Reader)
    (h : Header) (w : World) :
  Typeflag h = TypeDir →
  let target := path_Join (DBDataDirectory t) (Name h) in
  let mode := syscallMode (os_FileMode (Mode h)) in
  target ≠ "" → key target ≠ "/" →
  clear_way w target = true →
  (∀ c q, faults w c q = 0) →
  ∃ w' mkdirs,
    Interpret t r h w = Returned None w'
    ∧ fs w' !! key target = Some (Dir mode)
    ∧ (∀ k, k ≠ key target →
         fs w' !! k = fs w !! k
         ∨ (fs w !! k = None ∧ ∃ m, fs w' !! k = Some (Dir m)))
    ∧ since w w'
      = EvLog DebugLevel "Interpreting: " [AStr (Name h)]
        :: mkdirs ++ [EvChmod target mode]
    ∧ Forall (fun e => ∃ p, e = EvMkdir p perm_0755) mkdirs.
Proof.
  intros Hflag target mode Hne Hroot Hway Hfaults.
  set (greeting := EvLog DebugLevel "Interpreting: " [AStr (Name h)]).
  destruct (MkdirAll_rec_total (S (length (chars target))) perm_0755 target
              (record greeting w)) as [w1 Hmk];
    [lia|done|intros q; apply Hfaults|exact Hway|].
  destruct (MkdirAll_rec_frame (S (length (chars target))) perm_0755 target
              (record greeting w)) as (res & w1' & Hmk' & Hfaults1 & Hgrown & Hisdir).
  rewrite Hmk in Hmk'. injection Hmk' as <- <-. specialize (Hisdir eq_refl).
  pose proof (MkdirAll_rec_asks (S (length (chars target))) target perm_0755
                (record greeting w)) as Hasks.
  rewrite Hmk in Hasks. destruct Hasks as (mkdirs & Htrace & Hmkdirs).
  assert (Hnode : ∃ m, fs w1 !! key target = Some (Dir m)).
  { unfold is_dir, node_at in Hisdir. rewrite decide_False in Hisdir by done.
    destruct (fs w1 !! key target) as [[]|]; try done. eauto. }
  destruct Hnode as [m Hnode].
  exists (with_fs (<[key target := Dir mode]> (fs w1))
            (record (EvChmod target mode) w1)), mkdirs.
  split; [|split; [|split; [|split]]].
  - unfold Interpret. unfold bind at 1. unfold Debugln, emit. rewrite Hflag.
    change (bool_decide (TypeDir = TypeReg) || bool_decide (TypeDir = TypeRegA))
      with false.
    change (bool_decide (TypeDir = TypeDir)) with true. cbv iota.
    fold greeting target. unfold bind, os_MkdirAll. rewrite Hmk.
    unfold os_Chmod, guarded. rewrite Hfaults1. simpl.
    rewrite decide_True by apply Hfaults. now rewrite Hnode.
  - simpl. apply lookup_insert_eq.
  - intros k Hk. simpl. rewrite lookup_insert_ne by done.
    destruct (Hgrown k) as [Hsame|[Hfree Hnew]]; [now left|right]. eauto.
  - apply since_app. simpl. rewrite Htrace. simpl.
    now rewrite <- !app_assoc.
  - exact Hmkdirs.
Qed.

End Restore.

(** ** Properties of the oplog archive loader *)

Section ArchiveFacts.

Context `{Archive.Collaborators}.

Lemma convertAll_success (objects : list Archive.Object)
    (acc archives : list Archive.OplogArchive) :
  Archive.convertAll objects acc = Success archives
  ↔ ∃ converted,
      archives = acc ++ converted
      ∧ Forall2 (fun o a => Archive.ArchFromFilename (Archive.GetName o) = Success a)
          objects converted.
Proof.
  revert acc. induction objects as [|o rest IH]; intros acc; simpl.
  - split.
    + intros [= <-]. exists []. split; [now rewrite app_nil_r|constructor].
    + intros (converted & -> & Hall). apply Forall2_nil_inv_l in Hall as ->.
      now rewrite app_nil_r.
  - destruct (Archive.ArchFromFilename (Archive.GetName o)) as [a|e] eqn:Ho.
    + rewrite IH. split.
      * intros (converted & -> & Hall). exists (a :: converted).
        split; [now rewrite <- app_assoc|]. now constructor.
      * intros (converted & -> & Hall).
        apply Forall2_cons_inv_l in Hall as (a' & converted' & Ha & Hall & ->).
        simpl in Ha. rewrite Ho in Ha. injection Ha as <-.
        exists converted'. split; [now rewrite <- app_assoc|done].
    + split; [discriminate|].
      intros (converted & _ & Hall).
      apply Forall2_cons_inv_l in Hall as (a' & _ & Ha & _).
      simpl in Ha. congruence.
Qed.

(** X10: ListOplogArchives yields a list of archives exactly when the
    folder can be listed and the name of every listed object converts to
    an archive; the list then has one archive per object, in the order of
    the listing (sub-folders are not looked at). *)
Theorem ListOplogArchives_success_iff (sd : Archive.StorageDownloader)
    (archives : list Archive.OplogArchive) :
  Archive.ListOplogArchives sd = Success archives
  ↔ ∃ objects subFolders,
      Archive.ListFolder (Archive.folder sd) = Success (objects, subFolders)
      ∧ Forall2 (fun o a => Archive.ArchFromFilename (Archive.GetName o) = Success a)
          objects archives.
Proof.
  unfold Archive.ListOplogArchives.
  destruct (Archive.ListFolder (Archive.folder sd)) as [[objects subs]|e].
  - rewrite convertAll_success. split.
    + intros (converted & -> & Hall). now exists objects, subs.
    + intros (objects' & subs' & [= <- <-] & Hall). now exists archives.
  - split; [discriminate|]. intros (? & ? & [=] & _).
Qed.

(** X11: the errors of ListOplogArchives.  A folder that cannot be listed
    gives the listing error, wrapped.  Otherwise the first object whose
    name does not convert gives its conversion error, wrapped in a message
    that quotes this name, and no archive is returned, however many names
    before and after it convert. *)
Theorem ListOplogArchives_errors (sd : Archive.StorageDownloader) :
  (∀ e, Archive.ListFolder (Archive.folder sd) = Failure e →
     Archive.ListOplogArchives sd
     = Failure (Wrapped e "can not list archive folder")) ∧
  (∀ good bad rest subFolders e,
     Archive.ListFolder (Archive.folder sd) = Success (good ++ bad :: rest, subFolders) →
     Forall (fun o => ∃ a, Archive.ArchFromFilename (Archive.GetName o) = Success a) good →
     Archive.ArchFromFilename (Archive.GetName bad) = Failure e →
     Archive.ListOplogArchives sd
     = Failure (Wrapped e ("can not convert retrieve timestamps from oplog archive Ext '"
                           +:+ Archive.GetName bad +:+ "'"))).
Proof.
  unfold Archive.ListOplogArchives. split.
  - intros e ->. reflexivity.
  - intros good bad rest subs e -> Hgood Hbad.
    generalize (@nil Archive.OplogArchive) as acc.
    induction Hgood as [|o good [a Ho] _ IH]; intros acc; simpl.
    + now rewrite Hbad.
    + rewrite Ho. apply IH.
Qed.

(** X12: UploadBackup reads the wall clock, then pushes the stream.  When
    the push fails its error is returned as it is and nothing else is
    asked: no second reading of the clock, no sentinel.  When it succeeds
    the clock is read a second time and exactly one sentinel is uploaded,
    into the same folder and under the name the push gave; its start time
    is the reading before the push, its finish time the reading after it
    (whatever the two readings are), and the result is the one of the
    sentinel upload. *)
Theorem UploadBackup_sentinel_follows_push (su : Archive.StorageUploader)
    (stream : list byte) (s : Archive.Remote) :
  let into := Archive.UploadingFolder (Archive.Uploader_of su) in
  let push := Archive.CallPushStream into stream in
  let start := Archive.wallClock s (Archive.journal s) in
  let before := Archive.journal s ++ [Archive.CallTimeNow start; push] in
  let finish := Archive.wallClock s before in
  ∃ result s', Archive.UploadBackup su stream s = (result, s') ∧
    match Archive.answer s push with
    | Some e => result = Some e ∧ Archive.journal s' = before
    | None =>
        let dto := {| Archive.StartLocalTime := start;
                      Archive.FinishLocalTime := finish;
                      Archive.SentinelUserData := Archive.sentinelUserData s |} in
        let sentinel :=
          Archive.CallUploadSentinel into dto (Archive.backupNameOf s stream) in
        Archive.journal s' = before ++ [Archive.CallTimeNow finish; sentinel]
        ∧ result = Archive.answer s sentinel
    end.
Proof.
  intros into push start before finish.
  unfold Archive.UploadBackup, Archive.PushStream, Archive.UploadSentinel,
    Archive.TimeNowCrossPlatformLocal, Archive.GetSentinelUserData, Archive.call.
  simpl. fold into. fold push. fold start.
  destruct (Archive.answer s push) as [e|] eqn:Hpush.
  - do 2 eexists. split; [reflexivity|]. simpl.
    split; [reflexivity|]. unfold before. now rewrite <- app_assoc.
  - do 2 eexists. split; [reflexivity|]. simpl.
    replace ((Archive.journal s ++ [Archive.CallTimeNow start]) ++ [push])
      with before by (unfold before; now rewrite <- app_assoc).
    fold finish. split; [now rewrite <- app_assoc|reflexivity].
Qed.

(** X13: an oplog archive uploaded through NewStorageUploader(path).  A
    configuration error is returned at once.  Otherwise the uploader
    writes into the configured folder itself for the empty path and into
    its sub-folder [path] for any other, keeps the compressor, and
    UploadOplogArchive makes exactly one call, into that folder and to the
    file name of the archive; its error comes back wrapped, and no error
    comes back when the call reports none. *)
Theorem UploadOplogArchive_through_NewStorageUploader (path : string)
    (stream : list byte) (arch : Archive.OplogArchive) (s : Archive.Remote) :
  match Archive.configuredUploader s with
  | Failure e => Archive.NewStorageUploader path s = (Failure e, s)
  | Success uploader =>
      let into := if decide (path = "") then Archive.UploadingFolder uploader
                  else Archive.GetSubFolder (Archive.UploadingFolder uploader) path in
      let push := Archive.CallPushStreamToDestination into stream (Archive.Filename arch) in
      ∃ su, Archive.NewStorageUploader path s = (Success su, s)
        ∧ Archive.UploadingFolder (Archive.Uploader_of su) = into
        ∧ Archive.FileExtension su
          = Archive.Compressor_FileExtension (Archive.Uploader_Compressor uploader)
        ∧ ∃ s', Archive.UploadOplogArchive su stream arch s
                = (match Archive.answer s push with
                   | Some e => Some (Wrapped e "error while uploading stream")
                   | None => None
                   end, s')
                ∧ Archive.journal s' = Archive.journal s ++ [push]
  end.
Proof.
  unfold Archive.NewStorageUploader, Archive.ConfigureUploader.
  destruct (Archive.configuredUploader s) as [uploader|e]; [|reflexivity].
  set (into := if decide (path = "") then Archive.UploadingFolder uploader
               else Archive.GetSubFolder (Archive.UploadingFolder uploader) path).
  set (push := Archive.CallPushStreamToDestination into stream (Archive.Filename arch)).
  eexists. split; [reflexivity|].
  assert (Hinto : Archive.UploadingFolder
                    (if negb (bool_decide (path = ""))
                     then {| Archive.UploadingFolder :=
                               Archive.GetSubFolder (Archive.UploadingFolder uploader) path;
                             Archive.Uploader_Compressor :=
                               Archive.Uploader_Compressor uploader |}
                     else uploader) = into).
  { unfold into. destruct (decide (path = "")) as [->|Hne].
    - reflexivity.
    - now rewrite bool_decide_eq_false_2. }
  split; [exact Hinto|]. split.
  - unfold Archive.FileExtension. simpl. now destruct (negb _).
  - unfold Archive.UploadOplogArchive, Archive.PushStreamToDestination, Archive.call.
    simpl. rewrite Hinto. fold push.
    destruct (Archive.answer s push); eexists; split; reflexivity.
Qed.

End ArchiveFacts.

(** ** Properties of the codec registration *)

Section RegistryFacts.

Context {DecompressorT CompressorT : Type}.
Variable brotli_Decompressor : DecompressorT.
Variable brotli_Compressor : CompressorT.
Variable brotli_AlgorithmName : string.

(** X14: registering brotli keeps the registry consistent (every announced
    algorithm has a compressor) and announces brotli with its compressor;
    every other algorithm keeps the compressor it had, every decompressor
    and every announced name that was there keeps its place, and the
    brotli decompressor and name come last. *)
Theorem init_keeps_registry_consistent
    (r : Compression.Registry (DecompressorT := DecompressorT)
           (CompressorT := CompressorT)) :
  Compression.consistent r →
  let r' := Compression.init brotli_Decompressor brotli_Compressor brotli_AlgorithmName r in
  Compression.consistent r'
  ∧ brotli_AlgorithmName ∈ Compression.CompressingAlgorithms r'
  ∧ Compression.Compressors r' !! brotli_AlgorithmName = Some brotli_Compressor
  ∧ (∀ name, name ≠ brotli_AlgorithmName →
       Compression.Compressors r' !! name = Compression.Compressors r !! name)
  ∧ (∀ i d, Compression.Decompressors r !! i = Some d →
       Compression.Decompressors r' !! i = Some d)
  ∧ (∀ i n, Compression.CompressingAlgorithms r !! i = Some n →
       Compression.CompressingAlgorithms r' !! i = Some n)
  ∧ last (Compression.Decompressors r') = Some brotli_Decompressor
  ∧ last (Compression.CompressingAlgorithms r') = Some brotli_AlgorithmName.
Proof.
  intros Hcons r'. unfold r', Compression.init. simpl.
  split; [|split; [|split; [|split; [|split; [|split; [|split]]]]]].
  - intros name Hin. simpl in *. apply elem_of_app in Hin as [Hin|Hin].
    + destruct (decide (name = brotli_AlgorithmName)) as [->|Hne].
      * rewrite lookup_insert_eq. eauto.
      * rewrite lookup_insert_ne by done. now apply Hcons.
    + apply list_elem_of_singleton in Hin as ->. rewrite lookup_insert_eq. eauto.
  - apply elem_of_app. right. left.
  - apply lookup_insert_eq.
  - intros name Hne. now apply lookup_insert_ne.
  - intros i d Hd. now apply lookup_app_l_Some.
  - intros i n Hn. now apply lookup_app_l_Some.
  - apply last_snoc.
  - apply last_snoc.
Qed.

End RegistryFacts.

(** ** The theorems at concrete inputs *)

Lemma getFileSyncMode_resolution_witness :
  "global" ≠ "default" ∧
  ∃ w', getFileSyncMode Sample.modeKey Sample.legacyKey "default" "disabled"
          (Sample.world ∅ "default" (Some true) Sample.healthy)
        = Returned "disabled" w'
        ∧ length (trace w') = 2%nat.
Proof.
  assert (Hne : "global" ≠ "default") by discriminate.
  split; [exact Hne|].
  destruct (getFileSyncMode_resolution Sample.modeKey Sample.legacyKey
              "default" "global" "disabled"
              (Sample.world ∅ "default" (Some true) Sample.healthy) Hne)
    as (Hdefault & _ & _).
  destruct Hdefault as (w' & Hrun & Htrace & _);
    [split; reflexivity|reflexivity|].
  exists w'. split; [exact Hrun|]. rewrite Htrace. reflexivity.
Defined.

Lemma OnInterpretFinish_by_mode_witness :
  ("disabled" ≠ "global" ∧ "disabled" ≠ "default") ∧
  OnInterpretFinish Sample.modeKey Sample.legacyKey "default" "global" "disabled"
    (Sample.interpreter None false [] false)
    (Sample.world ∅ "global" None (fun c _ => if c is SysSync then 5 else 0))
  = Returned
      (Some (ErrorfD "FileTarInterpreter: global fsync failed with error code %d" 5))
      (record EvSync
         (Sample.world ∅ "global" None (fun c _ => if c is SysSync then 5 else 0))).
Proof.
  assert (Hg : "disabled" ≠ "global") by discriminate.
  assert (Hd : "disabled" ≠ "default") by discriminate.
  split; [split; assumption|].
  destruct (OnInterpretFinish_by_mode Sample.modeKey Sample.legacyKey
              "default" "global" "disabled"
              (Sample.interpreter None false [] false)
              (Sample.world ∅ "global" None (fun c _ => if c is SysSync then 5 else 0))
              (Sample.world ∅ "global" None (fun c _ => if c is SysSync then 5 else 0))
              Hg Hd) as [Hglobal _].
  destruct Hglobal as [Hrun _]; [reflexivity|]. exact Hrun.
Defined.

Lemma WriteLocalFile_copy_failure_witness :
  ∃ w',
    WriteLocalFile (Sample.broken "AA") (Sample.entry "f" TypeReg)
      (Sample.handle "/data/f") false
      (Sample.world {[ "/data/f" := RegFile [] 438 ]} "" None Sample.healthy)
    = Returned (Some (Wrapped (ReadError "unexpected EOF") "Interpret: copy failed")) w'
    ∧ fs w' !! "/data/f" = None.
Proof.
  edestruct (WriteLocalFile_copy_failure (Sample.broken "AA")
               (Sample.entry "f" TypeReg) (Sample.handle "/data/f") false
               (Sample.world {[ "/data/f" := RegFile [] 438 ]} "" None Sample.healthy))
    as (Habsent & Hreturns & _); [reflexivity|].
  destruct Hreturns as [w' Hrun]; [reflexivity|vm_compute; eauto|].
  exists w'. split; [exact Hrun|].
  now destruct (Habsent _ _ Hrun) as (_ & Hnone & _).
Defined.

Lemma WriteLocalFile_error_keeps_complete_file_witness :
  ∃ w',
    WriteLocalFile (Sample.full "AAAA") (Sample.entry "f" TypeReg)
      (Sample.handle "/data/f") false
      (Sample.world {[ "/data/f" := RegFile [] 438 ]} "" None
         (fun c _ => if c is SysChmod then 1 else 0))
    = Returned (Some (Wrapped (Errno SysChmod "/data/f" 1) "Interpret: chmod failed")) w'
    ∧ fs w' !! "/data/f" = Some (RegFile (Sample.bytes "AAAA") 438).
Proof.
  destruct (WriteLocalFile_error_keeps_complete_file (Sample.full "AAAA")
              (Sample.entry "f" TypeReg) (Sample.handle "/data/f") false
              (Sample.world {[ "/data/f" := RegFile [] 438 ]} "" None
                 (fun c _ => if c is SysChmod then 1 else 0)) 438)
    as (Hchmod & _); [reflexivity|reflexivity|].
  destruct Hchmod as (w' & Hrun & Hfile & _); [reflexivity|reflexivity|discriminate|].
  exists w'. split; [exact Hrun|exact Hfile].
Defined.

Lemma PrepareDirs_contract_witness :
  ∃ w',
    PrepareDirs "base/1/16384" "/data/base/1/16384"
      (Sample.world Sample.dataDir "" None Sample.healthy) = Returned None w'
    ∧ is_dir w' "/data/base/1/" = true.
Proof.
  destruct (PrepareDirs_contract "base/1/16384" "/data/base/1/16384"
              (Sample.world Sample.dataDir "" None Sample.healthy))
    as (_ & Hstrip & _).
  destruct (Hstrip "/data/base/1/") as (_ & _ & Hdone & Htotal);
    [discriminate|reflexivity|].
  destruct Htotal as [w' Hrun]; [discriminate|reflexivity|reflexivity|].
  exists w'. split; [exact Hrun|]. now apply Hdone.
Defined.

Lemma unwrapRegularFileOld_selection_witness :
  (∃ w',
     unwrapRegularFileOld 4 (Sample.readIncrement 4)
       (Sample.interpreter (Some {[ "base/1/16384" := true ]}) false [] false)
       (Sample.full "AAAA") (Sample.entryOfMode "base/1/16384" TypeReg 33188)
       "/data/base/1/16384" false
       (Sample.world Sample.dataDir "" None Sample.healthy) = Returned None w'
     ∧ fs w' !! "/data/base/1/16384" = Some (RegFile (Sample.bytes "AAAA") 420))
  ∧ (∃ w',
       unwrapRegularFileOld 4 (Sample.readIncrement 4)
         (Sample.interpreter (Some {[ "base/1/16384" := true ]}) false [] false)
         (Sample.full "BBBB") (Sample.entryOfMode "base/1/1" TypeReg 33188)
         "/data/base/1/1" false
         (Sample.world Sample.dataDir "" None Sample.healthy) = Returned None w'
       ∧ fs w' = Sample.dataDir).
Proof.
  split.
  - destruct (unwrapRegularFileOld_selection 4 (Sample.readIncrement 4)
                (Sample.interpreter (Some {[ "base/1/16384" := true ]}) false [] false)
                (Sample.full "AAAA") (Sample.entryOfMode "base/1/16384" TypeReg 33188)
                "/data/base/1/16384" false
                (Sample.world Sample.dataDir "" None Sample.healthy))
      as (_ & _ & _ & _ & Hiff).
    destruct (Hiff "/data/base/1" "16384") as (w' & Hrun & Hrestored & _).
    + now left.
    + reflexivity.
    + left. now exists "base/1".
    + reflexivity.
    + discriminate.
    + reflexivity.
    + reflexivity.
    + reflexivity.
    + reflexivity.
    + exists w'. split; [exact Hrun|]. apply Hrestored.
      right. exists {[ "base/1/16384" := true ]}. split; [reflexivity|].
      vm_compute. eauto.
  - destruct (unwrapRegularFileOld_selection 4 (Sample.readIncrement 4)
                (Sample.interpreter (Some {[ "base/1/16384" := true ]}) false [] false)
                (Sample.full "BBBB") (Sample.entryOfMode "base/1/1" TypeReg 33188)
                "/data/base/1/1" false
                (Sample.world Sample.dataDir "" None Sample.healthy))
      as (_ & Hexcluded & _).
    destruct Hexcluded as (w' & Hrun & Hfs & _).
    { eexists. split; reflexivity. }
    exists w'. split; [exact Hrun|exact Hfs].
Defined.

Lemma unwrapRegularFileOld_decision_witness :
  ∃ w',
    unwrapRegularFileOld 4 (Sample.readIncrement 4)
      (Sample.interpreter None false ["base/1/16384"] false)
      (Sample.full "AAAA") (Sample.entry "base/1/16384" TypeReg)
      "/data/base/1/16384" false
      (Sample.world Sample.dataDir "" None Sample.healthy) = Returned None w'
    ∧ fs w' !! "/data/base/1/16384" = Some (RegFile (Sample.bytes "AAAA") 420).
Proof.
  destruct (unwrapRegularFileOld_decision 4 (Sample.readIncrement 4)
              (Sample.interpreter None false ["base/1/16384"] false)
              (Sample.full "AAAA") (Sample.entry "base/1/16384" TypeReg)
              "/data/base/1/16384" false
              (Sample.world Sample.dataDir "" None Sample.healthy))
    as [_ Hfull]; [now left|].
  destruct Hfull as [_ Hfile]; [right; right; reflexivity|].
  eexists. split; [vm_compute; reflexivity|]. apply Hfile. vm_compute. reflexivity.
Defined.

Lemma unwrapRegularFileOld_applies_increment_witness :
  ∃ w' content mode,
    unwrapRegularFileOld 4 (Sample.readIncrement 4)
      (Sample.interpreter None true ["base/1/16384"] false)
      Sample.oneBlock (Sample.entry "base/1/16384" TypeReg)
      "/data/base/1/16384" false
      (Sample.world
         (<[ "/data/base/1/16384" := RegFile (Sample.bytes "AAAAXXXXCCCC") 420 ]>
            Sample.dataDir) "" None Sample.healthy) = Returned None w'
    ∧ fs w' !! "/data/base/1/16384" = Some (RegFile content mode)
    ∧ slice content 4 4 = Sample.bytes "BBBB"
    ∧ content !! 0%nat = Some Byte.x41 ∧ content !! 8%nat = Some Byte.x43.
Proof.
  eexists.
  edestruct (unwrapRegularFileOld_applies_increment 4 (Sample.readIncrement 4)
               (Sample.interpreter None true ["base/1/16384"] false)
               Sample.oneBlock (Sample.entry "base/1/16384" TypeReg)
               "/data/base/1/16384" false
               (Sample.world
                  (<[ "/data/base/1/16384" := RegFile (Sample.bytes "AAAAXXXXCCCC") 420 ]>
                     Sample.dataDir) "" None Sample.healthy))
    as (content & mode & Hfile & Hblocks & _ & _ & Hold);
    [now left|reflexivity|reflexivity|reflexivity|reflexivity|vm_compute; reflexivity|].
  exists content, mode. split; [vm_compute; reflexivity|]. split; [exact Hfile|].
  split; [apply (Hblocks 1%nat); reflexivity|].
  destruct Hold as (old & mode0 & Hbefore & _ & Hkeep); [reflexivity|].
  vm_compute in Hbefore. injection Hbefore as <- <-.
  split.
  - rewrite Hkeep; [reflexivity| |simpl; lia].
    intros bn page [[= -> ->]|[]%elem_of_nil]%elem_of_cons. lia.
  - rewrite Hkeep; [reflexivity| |simpl; lia].
    intros bn page [[= -> ->]|[]%elem_of_nil]%elem_of_cons. lia.
Defined.

(** C4: the code at a regular-file entry under the Default mode.  The
    resolved mode is Default, the file is written in full with its mode
    bits applied, and Interpret (which hands fsync = false to the unwrap
    function) issues no fsync of the file: the calls it makes are mkdir,
    open, write, chmod and close.  The same entry through
    unwrapRegularFileOld with fsync = true is fsynced after write and
    chmod.  Under the old unwrap logic Interpret issues no fsync for any
    entry in any world. *)
Theorem Interpret_default_mode_issues_no_fsync :
  let w := Sample.world Sample.dataDir "default" None Sample.healthy in
  let t := Sample.interpreter None false [] false in
  let h := Sample.entry "base/1/16384" TypeReg in
  let target := "/data/base/1/16384" in
  getFileSyncMode Sample.modeKey Sample.legacyKey "default" "disabled" w
  = Returned "default" w
  ∧ (∃ w', Interpret 4 (Sample.readIncrement 4) Sample.join false Sample.noNewUnwrap
             t (Sample.full "AAAA") h w = Returned None w'
           ∧ fs w' !! target = Some (RegFile (Sample.bytes "AAAA") 420)
           ∧ since w w'
             = [EvLog DebugLevel "Interpreting: " [AStr "base/1/16384"];
                EvMkdir "/data/base" 493; EvMkdir "/data/base/1/" 493;
                EvOpen target 577 438;
                EvWrite target 0 (Sample.bytes "AAAA");
                EvChmod target 420; EvClose target]
           ∧ EvFsync target ∉ since w w')
  ∧ (∃ w', unwrapRegularFileOld 4 (Sample.readIncrement 4) t (Sample.full "AAAA") h
             target true w = Returned None w'
           ∧ since w w'
             = [EvMkdir "/data/base" 493; EvMkdir "/data/base/1/" 493;
                EvOpen target 577 438;
                EvWrite target 0 (Sample.bytes "AAAA");
                EvChmod target 420; EvFsync target; EvClose target])
  ∧ (∀ blockSize readIncrement join unwrapNew t' r' h',
       quiet not_fsync
         (Interpret blockSize readIncrement join false unwrapNew t' r' h')).
Proof.
  split; [reflexivity|]. split; [|split].
  - eexists. split; [vm_compute; reflexivity|].
    split; [vm_compute; reflexivity|].
    split; [vm_compute; reflexivity|].
    vm_compute since.
    repeat (apply not_elem_of_cons; split; [discriminate|]). apply not_elem_of_nil.
  - eexists. split; vm_compute; reflexivity.
  - intros. now apply Interpret_never_fsyncs.
Qed.

(** C8: the code at link entries.  The symbolic-link entry
    pg_tblspc/16385, recorded in the archive as a link to /mnt/ssd/ts1,
    is interpreted without error, but os.Symlink is called with the
    entry's own name as the text of the link: the link at the target path
    holds pg_tblspc/16385, not the recorded target name.  The hard-link
    entry base/1/2, recorded as a link to base/1/1, which has been
    restored, is answered with an error: os.Link is asked to link the
    entry's own name, and no file of that name is there.  When the data
    directory is the working directory, target path and entry name are
    the same path, and a hard-link entry cannot be interpreted without
    error in any state of the world.  In general, a link that Interpret
    creates for an entry holds the entry's own name, and whatever the
    recorded target name is, Interpret does the same. *)
Theorem Interpret_link_names_itself :
  let run := Interpret 4 (Sample.readIncrement 4) Sample.join false Sample.noNewUnwrap in
  let t := Sample.interpreter None false [] false in
  let symlink := Sample.linkEntry "pg_tblspc/16385" TypeSymlink "/mnt/ssd/ts1" in
  let w := Sample.world (<[ "/data/pg_tblspc" := Dir perm_0755 ]> Sample.dataDir)
             "" None Sample.healthy in
  let hardlink := Sample.linkEntry "base/1/2" TypeLink "base/1/1" in
  let w2 := Sample.world
              (<[ "/data/base/1/1" := RegFile (Sample.bytes "AAAA") 420 ]>
                 (<[ "/data/base/1" := Dir perm_0755 ]>
                    (<[ "/data/base" := Dir perm_0755 ]> Sample.dataDir)))
              "" None Sample.healthy in
  let local := NewFileTarInterpreter "" {| IsIncremental := false |}
                 {| Files := ∅ |} None false in
  (∃ w', run t (Sample.full "") symlink w = Returned None w'
         ∧ fs w' !! "/data/pg_tblspc/16385" = Some (Symlink "pg_tblspc/16385")
         ∧ fs w' !! "/data/pg_tblspc/16385" ≠ Some (Symlink (Linkname symlink))
         ∧ since w w'
           = [EvLog DebugLevel "Interpreting: " [AStr "pg_tblspc/16385"];
              EvSymlink "pg_tblspc/16385" "/data/pg_tblspc/16385"])
  ∧ (∃ w', run t (Sample.full "") hardlink w2
           = Returned (Some (Wrapped (Errno SysLink "base/1/2" ENOENT)
                               "Interpret: failed to create hardlink /data/base/1/2")) w'
           ∧ fs w' = fs w2
           ∧ since w2 w'
             = [EvLog DebugLevel "Interpreting: " [AStr "base/1/2"];
                EvLink "base/1/2" "/data/base/1/2"])
  ∧ (∀ w0, ∃ e w', run local (Sample.full "") hardlink w0 = Returned (Some e) w'
                   ∧ fs w' = fs w0)
  ∧ (∀ blockSize readIncrement join useNew unwrapNew t' r' name mode linkname w0,
       match Interpret blockSize readIncrement join useNew unwrapNew t' r'
               {| Name := name; Typeflag := TypeSymlink; Mode := mode;
                  Linkname := linkname |} w0
       with
       | Returned None w' =>
           fs w' = <[key (join (DBDataDirectory t') name) := Symlink name]> (fs w0)
       | _ => True
       end)
  ∧ (∀ blockSize readIncrement join useNew unwrapNew t' r' name mode linkname w0,
       match Interpret blockSize readIncrement join useNew unwrapNew t' r'
               {| Name := name; Typeflag := TypeLink; Mode := mode;
                  Linkname := linkname |} w0
       with
       | Returned None w' =>
           fs w' = <[key (join (DBDataDirectory t') name) := HardLink name]> (fs w0)
       | _ => True
       end)
  ∧ (∀ blockSize readIncrement join unwrapNew t' r' h' linkname w0,
       Interpret blockSize readIncrement join false unwrapNew t' r'
         {| Name := Name h'; Typeflag := Typeflag h'; Mode := Mode h';
            Linkname := linkname |} w0
       = Interpret blockSize readIncrement join false unwrapNew t' r' h' w0).
Proof.
  split; [|split; [|split; [|split; [|split]]]].
  - eexists. split; [vm_compute; reflexivity|].
    split; [vm_compute; reflexivity|].
    split; [vm_compute; discriminate|].
    vm_compute. reflexivity.
  - eexists. split; [vm_compute; reflexivity|].
    split; [vm_compute; reflexivity|].
    vm_compute. reflexivity.
  - intros w0. unfold Interpret, bind, Debugln, emit, ret, os_Link, guarded. simpl.
    change (Sample.join "" "base/1/2") with "base/1/2".
    rewrite !node_at_record.
    destruct (decide _); [|eauto].
    destruct (node_at w0 "base/1/2"); eauto.
  - intros. unfold Interpret, bind, Debugln, emit, ret, os_Symlink, guarded. simpl.
    destruct (decide _); [|done].
    destruct (node_at _ _); [done|].
    now destruct (_ && _).
  - intros. unfold Interpret, bind, Debugln, emit, ret, os_Link, guarded. simpl.
    destruct (decide _); [|done].
    destruct (node_at _ name) as [old|]; [|done].
    destruct (node_at _ _); [done|].
    destruct (_ && _); [|done]. now destruct old.
  - reflexivity.
Qed.

(** ** The further properties at concrete inputs *)

Lemma WriteLocalFile_succeeds_iff_witness :
  (∃ w',
     WriteLocalFile (Sample.full "AAAA") (Sample.entryOfMode "f" TypeReg 33188)
       (Sample.handle "/data/f") true
       (Sample.world {[ "/data/f" := RegFile [] 438 ]} "" None Sample.healthy)
     = Returned None w'
     ∧ fs w' !! "/data/f" = Some (RegFile (Sample.bytes "AAAA") 420))
  ∧ (∃ w',
       WriteLocalFile (Sample.full "") (Sample.entryOfMode "f" TypeReg 33188)
         (Sample.handle "/data/f") false
         (Sample.world {[ "/data/f" := RegFile [] 438 ]} "" None
            (fun c _ => if c is SysWrite then 28 else 0))
       = Returned None w'
       ∧ since (Sample.world {[ "/data/f" := RegFile [] 438 ]} "" None
                  (fun c _ => if c is SysWrite then 28 else 0)) w'
         = [EvChmod "/data/f" 420]).
Proof.
  split.
  - destruct (WriteLocalFile_succeeds_iff (Sample.full "AAAA")
                (Sample.entryOfMode "f" TypeReg 33188) (Sample.handle "/data/f") true
                (Sample.world {[ "/data/f" := RegFile [] 438 ]} "" None Sample.healthy)
                438) as (Hiff & Hfile & _); [reflexivity|reflexivity|].
    destruct Hiff as [_ [w' Hrun]]; [repeat split; reflexivity|].
    exists w'. split; [exact Hrun|].
    destruct (Hfile w' Hrun) as [-> _]. reflexivity.
  - destruct (WriteLocalFile_succeeds_iff (Sample.full "")
                (Sample.entryOfMode "f" TypeReg 33188) (Sample.handle "/data/f") false
                (Sample.world {[ "/data/f" := RegFile [] 438 ]} "" None
                   (fun c _ => if c is SysWrite then 28 else 0))
                438) as (Hiff & Hfile & _); [reflexivity|reflexivity|].
    destruct Hiff as [_ [w' Hrun]].
    { split; [reflexivity|]. split; [intros Hdata; now destruct Hdata|].
      split; [reflexivity|discriminate]. }
    exists w'. split; [exact Hrun|].
    destruct (Hfile w' Hrun) as (_ & writes & -> & _ & Hnone).
    now rewrite (proj2 Hnone eq_refl).
Defined.

Lemma Interpret_regular_file_is_byte_exact_witness :
  ∃ w',
    Interpret 4 (Sample.readIncrement 4) Sample.join false Sample.noNewUnwrap
      (Sample.interpreter None false [] false) (Sample.full "AAAA")
      (Sample.entryOfMode "base/1/16384" TypeRegA 33188)
      (Sample.world Sample.dataDir "" None Sample.healthy) = Returned None w'
    ∧ fs w' !! key (Sample.join "/data" "base/1/16384")
      = Some (RegFile (Sample.bytes "AAAA") 420).
Proof.
  eexists. split; [vm_compute; reflexivity|].
  apply (Interpret_regular_file_is_byte_exact 4 (Sample.readIncrement 4) Sample.join
           false Sample.noNewUnwrap (Sample.interpreter None false [] false)
           (Sample.full "AAAA") (Sample.entryOfMode "base/1/16384" TypeRegA 33188)
           (Sample.world Sample.dataDir "" None Sample.healthy)).
  - reflexivity.
  - now right.
  - now left.
  - now left.
  - now apply map_Forall_singleton.
  - vm_compute. reflexivity.
  - simpl. lia.
Defined.

Lemma Interpret_passes_over_other_kinds_witness :
  ∃ w',
    Interpret 4 (Sample.readIncrement 4) Sample.join false Sample.noNewUnwrap
      (Sample.interpreter None false [] false) (Sample.full "")
      (Sample.entry "dev/null" "3"%char)
      (Sample.world Sample.dataDir "" None Sample.healthy) = Returned None w'
    ∧ fs w' = Sample.dataDir.
Proof.
  destruct (Interpret_passes_over_other_kinds 4 (Sample.readIncrement 4) Sample.join
              false Sample.noNewUnwrap (Sample.interpreter None false [] false)
              (Sample.full "") (Sample.entry "dev/null" "3"%char)
              (Sample.world Sample.dataDir "" None Sample.healthy))
    as (w' & Hrun & Hfs & _).
  { rewrite !not_elem_of_cons. repeat split; try discriminate. apply not_elem_of_nil. }
  exists w'. split; [exact Hrun|exact Hfs].
Defined.

Lemma Interpret_asks_for_no_fsync_witness :
  match
    Interpret 4 (Sample.readIncrement 4) Sample.join false Sample.noNewUnwrap
      (Sample.interpreter None false [] false) (Sample.full "AAAA")
      (Sample.entry "base/1/16384" TypeReg)
      (Sample.world Sample.dataDir "" None Sample.healthy)
  with
  | Returned _ w' =>
      ∀ p, EvFsync p ∉ since (Sample.world Sample.dataDir "" None Sample.healthy) w'
  | Exited w' =>
      ∀ p, EvFsync p ∉ since (Sample.world Sample.dataDir "" None Sample.healthy) w'
  end.
Proof.
  exact (Interpret_asks_for_no_fsync 4 (Sample.readIncrement 4) Sample.join false
           Sample.noNewUnwrap (Sample.interpreter None false [] false)
           (Sample.full "AAAA") (Sample.entry "base/1/16384" TypeReg)
           (Sample.world Sample.dataDir "" None Sample.healthy) eq_refl).
Defined.

Lemma Interpret_directory_twice_witness :
  ∃ w' w'',
    Interpret 4 (Sample.readIncrement 4) Sample.join false Sample.noNewUnwrap
      (Sample.interpreter None false [] false) (Sample.full "")
      (Sample.entryOfMode "base/1" TypeDir 17384)
      (Sample.world Sample.dataDir "" None Sample.healthy) = Returned None w'
    ∧ fs w' !! "/data/base/1" = Some (Dir 488)
    ∧ Interpret 4 (Sample.readIncrement 4) Sample.join false Sample.noNewUnwrap
        (Sample.interpreter None false [] false) (Sample.full "")
        (Sample.entryOfMode "base/1" TypeDir 17384) w' = Returned None w''
    ∧ fs w'' = fs w'.
Proof.
  eexists.
  edestruct (Interpret_directory_twice 4 (Sample.readIncrement 4) Sample.join false
               Sample.noNewUnwrap (Sample.interpreter None false [] false)
               (Sample.full "") (Sample.entryOfMode "base/1" TypeDir 17384)
               (Sample.world Sample.dataDir "" None Sample.healthy))
    as (_ & Hmode & w'' & Hagain & Hsame);
    [reflexivity|now apply map_Forall_singleton|vm_compute; reflexivity|].
  exists w''. split; [vm_compute; reflexivity|].
  split; [|split; [exact Hagain|exact Hsame]].
  destruct Hmode as [_ Hbits]; [discriminate|]. apply Hbits. simpl. lia.
Defined.

Lemma OnInterpretFinish_under_default_witness :
  ∃ w',
    OnInterpretFinish Sample.modeKey Sample.legacyKey "default" "global" "disabled"
      (Sample.interpreter None false [] false)
      (Sample.world ∅ "default" (Some true) Sample.healthy) = Returned None w'
    ∧ EvSync ∉ since (Sample.world ∅ "default" (Some true) Sample.healthy) w'.
Proof.
  destruct (OnInterpretFinish_under_default Sample.modeKey Sample.legacyKey
              "default" "global" "disabled"
              (Sample.interpreter None false [] false)
              (Sample.world ∅ "default" (Some true) Sample.healthy))
    as (result & w' & Hrun & _ & _ & Hlegacy);
    [discriminate|discriminate|reflexivity|].
  destruct Hlegacy as [-> Hsince]; [reflexivity|].
  exists w'. split; [exact Hrun|]. rewrite Hsince.
  rewrite !not_elem_of_cons. repeat split; try discriminate. apply not_elem_of_nil.
Defined.

Lemma unwrapRegularFileOld_restores_file_witness :
  ∃ w',
    unwrapRegularFileOld 4 (Sample.readIncrement 4)
      (Sample.interpreter None false [] false) (Sample.full "AAAA")
      (Sample.entryOfMode "base/1/16384" TypeReg 35309) "/data/base/1/16384" true
      (Sample.world
         (<[ "/data/base/1/16384" := RegFile (Sample.bytes "old content") 384 ]>
            Sample.dataDir) "" None Sample.healthy) = Returned None w'
    ∧ fs w' !! "/data/base/1/16384" = Some (RegFile (Sample.bytes "AAAA") 493).
Proof.
  apply (unwrapRegularFileOld_restores_file 4 (Sample.readIncrement 4)
           (Sample.interpreter None false [] false) (Sample.full "AAAA")
           (Sample.entryOfMode "base/1/16384" TypeReg 35309) "/data/base/1" "16384" true
           (Sample.world
              (<[ "/data/base/1/16384" := RegFile (Sample.bytes "old content") 384 ]>
                 Sample.dataDir) "" None Sample.healthy)).
  - now left.
  - now left.
  - reflexivity.
  - left. now exists "base/1".
  - discriminate.
  - reflexivity.
  - right. vm_compute. eauto.
  - reflexivity.
  - reflexivity.
Defined.

Lemma ListOplogArchives_success_iff_witness :
  Archive.ListOplogArchives (H := ArchiveSample.collaborators)
    (ArchiveSample.downloader "clean/")
  = Success ["oplog_2_3.br"; "oplog_1_2.br"].
Proof.
  apply (ListOplogArchives_success_iff (H := ArchiveSample.collaborators)).
  exists [ArchiveSample.named "oplog_2_3.br"; ArchiveSample.named "oplog_1_2.br"],
         ["clean/old/"].
  split; [reflexivity|]. repeat constructor.
Defined.

Lemma ListOplogArchives_errors_witness :
  Archive.ListOplogArchives (H := ArchiveSample.collaborators)
    (ArchiveSample.downloader "oplog/")
  = Failure (Wrapped (ReadError "not an oplog archive")
               "can not convert retrieve timestamps from oplog archive Ext 'junk'")
  ∧ Archive.ListOplogArchives (H := ArchiveSample.collaborators)
      (ArchiveSample.downloader "gone/")
    = Failure (Wrapped (ReadError "no such folder") "can not list archive folder").
Proof.
  destruct (ListOplogArchives_errors (H := ArchiveSample.collaborators)
              (ArchiveSample.downloader "oplog/")) as [_ Hbad].
  destruct (ListOplogArchives_errors (H := ArchiveSample.collaborators)
              (ArchiveSample.downloader "gone/")) as [Hgone _].
  split.
  - apply (Hbad [ArchiveSample.named "oplog_1_2.br"] (ArchiveSample.named "junk")
             [ArchiveSample.named "oplog_2_3.br"] []).
    + reflexivity.
    + repeat constructor. now exists "oplog_1_2.br".
    + reflexivity.
  - apply Hgone. reflexivity.
Defined.

Lemma init_keeps_registry_consistent_witness :
  Compression.consistent
    (Compression.init "brotli-decompressor" "brotli-compressor" "brotli"
       ArchiveSample.registry)
  ∧ Compression.Compressors
      (Compression.init "brotli-decompressor" "brotli-compressor" "brotli"
         ArchiveSample.registry) !! "lz4" = Some "lz4-compressor".
Proof.
  destruct (init_keeps_registry_consistent "brotli-decompressor" "brotli-compressor"
              "brotli" ArchiveSample.registry) as (Hcons & _ & _ & Hkept & _).
  - intros name Hin. apply list_elem_of_singleton in Hin as ->.
    vm_compute. eauto.
  - split; [exact Hcons|]. rewrite Hkept by discriminate. reflexivity.
Defined.

Lemma Interpret_link_twice_witness :
  ∃ w' w'',
    Interpret 4 (Sample.readIncrement 4) Sample.join false Sample.noNewUnwrap
      (Sample.interpreter None false [] false) (Sample.full "")
      (Sample.entry "PG_VERSION" TypeLink)
      (Sample.world (<[ "PG_VERSION" := RegFile (Sample.bytes "13") 420 ]> Sample.dataDir)
         "" None Sample.healthy) = Returned None w'
    ∧ Interpret 4 (Sample.readIncrement 4) Sample.join false Sample.noNewUnwrap
        (Sample.interpreter None false [] false) (Sample.full "")
        (Sample.entry "PG_VERSION" TypeLink) w'
      = Returned (Some (Wrapped (Errno SysLink "/data/PG_VERSION" EEXIST)
                          "Interpret: failed to create hardlink /data/PG_VERSION")) w''.
Proof.
  eexists.
  edestruct (Interpret_link_twice 4 (Sample.readIncrement 4) Sample.join false
               Sample.noNewUnwrap (Sample.interpreter None false [] false)
               (Sample.full "") (Sample.entry "PG_VERSION" TypeLink)
               (Sample.world
                  (<[ "PG_VERSION" := RegFile (Sample.bytes "13") 420 ]> Sample.dataDir)
                  "" None Sample.healthy)) as [Hhard _].
  destruct Hhard as (w'' & Hagain & _); [reflexivity|vm_compute; reflexivity|].
  exists w''. split; [vm_compute; reflexivity|exact Hagain].
Defined.

Lemma unwrapRegularFileOld_selection_edges_witness :
  unwrapRegularFileOld 4 (Sample.readIncrement 4)
    (Sample.interpreter (Some {[ "base/1/16384" := false ]}) false [] false)
    (Sample.full "AAAA") (Sample.entry "base/1/16384" TypeReg)
    "/data/base/1/16384" false
    (Sample.world Sample.dataDir "" None Sample.healthy)
  = unwrapRegularFileOld 4 (Sample.readIncrement 4)
      (unfiltered
         (Sample.interpreter (Some {[ "base/1/16384" := false ]}) false [] false))
      (Sample.full "AAAA") (Sample.entry "base/1/16384" TypeReg)
      "/data/base/1/16384" false
      (Sample.world Sample.dataDir "" None Sample.healthy).
Proof.
  destruct (unwrapRegularFileOld_selection_edges 4 (Sample.readIncrement 4)
              (Sample.interpreter (Some {[ "base/1/16384" := false ]}) false [] false)
              (Sample.full "AAAA") (Sample.entry "base/1/16384" TypeReg)
              "/data/base/1/16384" false
              (Sample.world Sample.dataDir "" None Sample.healthy)) as [Hkey _].
  apply (Hkey {[ "base/1/16384" := false ]}); reflexivity.
Defined.

Lemma Interpret_directory_goes_through_witness :
  ∃ w',
    Interpret 4 (Sample.readIncrement 4) Sample.join false Sample.noNewUnwrap
      (Sample.interpreter None false [] false) (Sample.full "")
      (Sample.entryOfMode "base/1" TypeDir 17384)
      (Sample.world Sample.dataDir "" None Sample.healthy) = Returned None w'
    ∧ fs w' !! key (Sample.join "/data" "base/1") = Some (Dir 488)
    ∧ since (Sample.world Sample.dataDir "" None Sample.healthy) w'
      = [EvLog DebugLevel "Interpreting: " [AStr "base/1"];
         EvMkdir "/data/base" 493; EvMkdir "/data/base/1" 493;
         EvChmod "/data/base/1" 488].
Proof.
  destruct (Interpret_directory_goes_through 4 (Sample.readIncrement 4) Sample.join
              false Sample.noNewUnwrap (Sample.interpreter None false [] false)
              (Sample.full "") (Sample.entryOfMode "base/1" TypeDir 17384)
              (Sample.world Sample.dataDir "" None Sample.healthy))
    as (w' & mkdirs & Hrun & Hdir & _).
  - reflexivity.
  - discriminate.
  - vm_compute. discriminate.
  - reflexivity.
  - reflexivity.
  - exists w'. split; [exact Hrun|]. split; [exact Hdir|].
    vm_compute in Hrun. injection Hrun as <-. reflexivity.
Defined.
